(** * Library-Management: the API of [server.js]

    A shallow embedding of the validation helper [validateUser] and of the
    request handlers of [src/server.js] for [/api/users] and [/api/contacts],
    together with the part of the JavaScript runtime and of the two SQLite
    tables they rely on, and the properties of the specification proved
    about them.

    Conventions.
    - A JavaScript string is a [string]; its characters are the code units
      0..255 (Latin-1), each of them one character of the text SQLite
      stores.  [length], [trim] and [toLowerCase] are those of JavaScript on
      that range.
    - A JSON number is an integer [Z], standing for the double nearest to
      it; the program never computes with a number taken from a request, it
      only tests, renders or compares it.  Numbers with a fractional part
      are not represented as values; they do arise, as Numbers, when a
      string is read as a number.
    - A table is a finite map from the row id (the INTEGER PRIMARY KEY) to
      the other columns, plus the AUTOINCREMENT counter. *)

From Stdlib Require Import Ascii String ZArith.
From stdpp Require Import gmap strings list sorting pretty.

Open Scope string_scope.
Open Scope Z_scope.

#[local] Set Warnings "-clear-no-such-hyp".

(* ===================================================================== *)
(** ** Characters and strings *)
(* ===================================================================== *)

Module Js.

Definition code (c : ascii) : N := N_of_ascii c.

(** WhiteSpace and LineTerminator code units below 256: TAB, LF, VT, FF, CR,
    SP and NBSP.  This is the class [\s] of a regular expression and the set
    [String.prototype.trim] strips. *)
Definition is_space (c : ascii) : bool :=
  let n := code c in
  ((9 <=? n) && (n <=? 13) || (n =? 32) || (n =? 160))%N.

(** The class [\d]. *)
Definition is_digit (c : ascii) : bool :=
  let n := code c in ((48 <=? n) && (n <=? 57))%N.

(** Letters with a lowercase mapping: A-Z, and U+00C0..U+00DE but U+00D7. *)
Definition is_upper (c : ascii) : bool :=
  let n := code c in
  ((65 <=? n) && (n <=? 90) || (192 <=? n) && (n <=? 222) && negb (n =? 215))%N.

Definition lower_char (c : ascii) : ascii :=
  if is_upper c then ascii_of_N (code c + 32) else c.

(** [String.prototype.toLowerCase]. *)
Fixpoint toLowerCase (s : string) : string :=
  match s with
  | EmptyString => EmptyString
  | String c s' => String (lower_char c) (toLowerCase s')
  end.

Fixpoint trimStart (s : string) : string :=
  match s with
  | EmptyString => EmptyString
  | String c s' => if is_space c then trimStart s' else s
  end.

Fixpoint trimEnd (s : string) : string :=
  match s with
  | EmptyString => EmptyString
  | String c s' =>
      match trimEnd s' with
      | EmptyString => if is_space c then EmptyString else String c EmptyString
      | t => String c t
      end
  end.

(** [String.prototype.trim]. *)
Definition trim (s : string) : string := trimEnd (trimStart s).

(** [Array.prototype.join] on an array of strings. *)
Fixpoint join (sep : string) (l : list string) : string :=
  match l with
  | [] => ""
  | [x] => x
  | x :: l' => x +:+ sep +:+ join sep l'
  end.

Fixpoint starts_with (p s : string) : bool :=
  match p, s with
  | EmptyString, _ => true
  | String a p', String b s' => if Ascii.eqb a b then starts_with p' s' else false
  | String _ _, EmptyString => false
  end.

(** [String.prototype.includes]: [sub] occurs somewhere in [s]. *)
Fixpoint includes (s sub : string) : bool :=
  starts_with sub s ||
  match s with
  | EmptyString => false
  | String _ s' => includes s' sub
  end.

(* --------------------------------------------------------------------- *)
(** *** Regular expressions

    The two patterns of the program use character classes, concatenation,
    [+] and [{10}], anchored at both ends.  A pattern is matched against the
    whole string by taking derivatives. *)

Inductive regex : Type :=
  | RNone
  | REps
  | RClass (p : ascii → bool)
  | RCat (r1 r2 : regex)
  | RAlt (r1 r2 : regex)
  | RStar (r : regex).

Fixpoint nullable (r : regex) : bool :=
  match r with
  | RNone => false
  | REps => true
  | RClass _ => false
  | RCat r1 r2 => nullable r1 && nullable r2
  | RAlt r1 r2 => nullable r1 || nullable r2
  | RStar _ => true
  end.

Fixpoint deriv (c : ascii) (r : regex) : regex :=
  match r with
  | RNone => RNone
  | REps => RNone
  | RClass p => if p c then REps else RNone
  | RCat r1 r2 =>
      if nullable r1
      then RAlt (RCat (deriv c r1) r2) (deriv c r2)
      else RCat (deriv c r1) r2
  | RAlt r1 r2 => RAlt (deriv c r1) (deriv c r2)
  | RStar r1 => RCat (deriv c r1) (RStar r1)
  end.

(** [^r$] matches [s]. *)
Fixpoint matches (r : regex) (s : string) : bool :=
  match s with
  | EmptyString => nullable r
  | String c s' => matches (deriv c r) s'
  end.

Definition RPlus (r : regex) : regex := RCat r (RStar r).

Fixpoint RRepeat (n : nat) (r : regex) : regex :=
  match n with
  | O => REps
  | S n' => RCat r (RRepeat n' r)
  end.

Definition RChar (a : ascii) : regex := RClass (Ascii.eqb a).

(* --------------------------------------------------------------------- *)
(** *** Outcomes of evaluation

    An expression either yields a value or throws. *)

Inductive JsError : Type := TypeError.

Inductive Outcome (A : Type) : Type :=
  | Ret (a : A)
  | Throw (e : JsError).

Arguments Ret {A} a.
Arguments Throw {A} e.

Definition bind {A B : Type} (m : Outcome A) (f : A → Outcome B) : Outcome B :=
  match m with
  | Ret a => f a
  | Throw e => Throw e
  end.

Notation "'do' x <- m ;; k" := (bind m (fun x => k))
  (at level 10, x name, m at level 99, k at level 200).

(** [a || b] and [a && b], the right operand evaluated only when needed. *)
Definition or_else (a b : Outcome bool) : Outcome bool :=
  do x <- a ;; if x then Ret true else b.
Definition and_then (a b : Outcome bool) : Outcome bool :=
  do x <- a ;; if x then b else Ret false.

Infix "|||" := or_else (at level 50, left associativity).
Infix "&&&" := and_then (at level 40, left associativity).

(* --------------------------------------------------------------------- *)
(** *** Numbers

    A Number is a double: not a number, an infinity, or [m * 2^e] for
    integers [m] and [e] (a zero of either sign is [Finite 0 0]: the program
    only compares and renders numbers, which does not tell the two apart). *)

Inductive Number : Type :=
  | NaN
  | Infinity (negative : bool)
  | Finite (m e : Z).

(** [a < b] on Numbers; false when either is NaN. *)
Definition num_lt (a b : Number) : bool :=
  match a, b with
  | NaN, _ | _, NaN => false
  | Infinity na, Infinity nb => na && negb nb
  | Infinity na, Finite _ _ => na
  | Finite _ _, Infinity nb => negb nb
  | Finite m1 e1, Finite m2 e2 =>
      let e := Z.min e1 e2 in
      m1 * 2 ^ (e1 - e) <? m2 * 2 ^ (e2 - e)
  end.

(** [p / (q * 2^e)] as a fraction of two integers. *)
Definition scaled (p q e : Z) : Z * Z :=
  if 0 <=? e then (p, q * 2 ^ e) else (p * 2 ^ (- e), q).

(** The exponent of the last bit of the double nearest to [p / q]: the one
    that leaves 53 bits of significand, and no less than -1074. *)
Definition last_bit (p q : Z) : Z :=
  let e0 := Z.log2 p - Z.log2 q - 53 in
  let '(a, b) := scaled p q e0 in
  Z.max (if a / b <? 2 ^ 53 then e0 else e0 + 1) (-1074).

(** [a / b] rounded to the nearest integer, a tie going to the even one. *)
Definition round_half_even (a b : Z) : Z :=
  let m := a / b in
  let r := a mod b in
  if (b <? 2 * r) || (b =? 2 * r) && Z.odd m then m + 1 else m.

(** The double nearest to [p / q] for [0 <= p] and [0 < q], with the sign
    given; an infinity from 2^1024 on. *)
Definition round_ratio (negative : bool) (p q : Z) : Number :=
  if p =? 0 then Finite 0 0
  else
    let e := last_bit p q in
    let '(a, b) := scaled p q e in
    let m := round_half_even a b in
    if (971 <? e) || (e =? 971) && (m =? 2 ^ 53) then Infinity negative
    else Finite (if negative then - m else m) e.

(** The Number a JSON integer denotes. *)
Definition number_of_int (n : Z) : Number :=
  if Z.abs n <? 2 ^ 53 then Finite n 0 else round_ratio (n <? 0) (Z.abs n) 1.

(** The digits of Number::toString for an integer [v] of at least 2^53 that
    is a double: the shortest decimal [s * 10^j] that still denotes [v], and
    the closer one to [v] when two do (they are never equally close: with
    two multiples of [10^j] in the interval, [v] is a multiple of [2^j]).
    [lo2] and [hi2] are twice the bounds of the interval of reals that round
    to [v], which is closed when the significand of [v] is even. *)
Fixpoint shortest (j : nat) (v lo2 hi2 : Z) (closed : bool) : Z * nat :=
  match j with
  | O => (v, O)
  | S j' =>
      let unit := 10 ^ Z.of_nat j in
      let s1 := v / unit in
      let s2 := s1 + 1 in
      let inside (c : Z) : bool :=
        if closed then (lo2 <=? 2 * c) && (2 * c <=? hi2)
        else (lo2 <? 2 * c) && (2 * c <? hi2) in
      let d1 := v - s1 * unit in
      let d2 := s2 * unit - v in
      match inside (s1 * unit), inside (s2 * unit) with
      | true, true => if d1 <? d2 then (s1, j) else (s2, j)
      | true, false => (s1, j)
      | false, true => (s2, j)
      | false, false => shortest j' v lo2 hi2 closed
      end
  end.

Fixpoint zeros (j : nat) : string :=
  match j with
  | O => ""
  | S j' => String "0" (zeros j')
  end.

(** The digits [s] followed by [j] zeros, written out in full up to 21
    digits and as [d.ddde+x] beyond. *)
Definition render (s : Z) (j : nat) : string :=
  let ds := pretty s in
  let n := (String.length ds + j)%nat in
  if (n <=? 21)%nat then ds +:+ zeros j
  else
    match ds with
    | EmptyString => EmptyString
    | String d EmptyString => String d ("e+" +:+ pretty (n - 1)%nat)
    | String d rest => String d ("." +:+ rest +:+ "e+" +:+ pretty (n - 1)%nat)
    end.

(** Number::toString of the Number a JSON integer denotes. *)
Definition NumberToString (n : Z) : string :=
  match number_of_int n with
  | NaN => "NaN"
  | Infinity negative => if negative then "-Infinity" else "Infinity"
  | Finite m e =>
      let v := Z.abs m * 2 ^ e in
      let digits :=
        if v <? 2 ^ 53 then pretty v
        else
          let e := Z.log2 v - 52 in
          let m := v / 2 ^ e in
          let below := if m =? 2 ^ 52 then 2 ^ (e - 1) else 2 ^ e in
          let '(s, j) :=
            shortest (String.length (pretty v)) v (2 * v - below) (2 * v + 2 ^ e)
                     (Z.even m) in
          render s j in
      if m <? 0 then "-" +:+ digits else digits
  end.

(** The decimal digits a string starts with, and the rest of it. *)
Fixpoint span_digits (s : string) : string * string :=
  match s with
  | String c s' =>
      if is_digit c then let '(d, r) := span_digits s' in (String c d, r)
      else ("", s)
  | EmptyString => ("", "")
  end.

(** The value of a digit in a radix up to 16. *)
Definition digit_value (radix : Z) (c : ascii) : option Z :=
  let n := Z.of_N (code c) in
  let d :=
    if (48 <=? n) && (n <=? 57) then n - 48
    else if (97 <=? n) && (n <=? 102) then n - 87
    else if (65 <=? n) && (n <=? 70) then n - 55
    else 16 in
  if d <? radix then Some d else None.

Fixpoint digits_value (radix : Z) (acc : Z) (s : string) : option Z :=
  match s with
  | EmptyString => Some acc
  | String c s' =>
      match digit_value radix c with
      | Some d => digits_value radix (acc * radix + d) s'
      | None => None
      end
  end.

Definition natural (radix : Z) (s : string) : option Z :=
  match s with
  | EmptyString => None
  | _ => digits_value radix 0 s
  end.

Definition strip_sign (s : string) : bool * string :=
  match s with
  | String "+" r => (false, r)
  | String "-" r => (true, r)
  | _ => (false, s)
  end.

(** The exponent part of a decimal literal, absent or [e], a sign and
    digits, up to the end of the string. *)
Definition exponent_part (s : string) : option Z :=
  match s with
  | EmptyString => Some 0
  | String c r =>
      if Ascii.eqb c "e" || Ascii.eqb c "E" then
        let '(negative, ds) := strip_sign r in
        match natural 10 ds with
        | Some x => Some (if negative then - x else x)
        | None => None
        end
      else None
  end.

(** StrDecimalLiteral: a sign, then [Infinity] or digits with an optional
    fraction and exponent. *)
Definition decimal_literal (t : string) : option Number :=
  let '(negative, u) := strip_sign t in
  if String.eqb u "Infinity" then Some (Infinity negative)
  else
    let '(int_part, r1) := span_digits u in
    let '(frac_part, r2) :=
      match r1 with
      | String "." r => span_digits r
      | _ => ("", r1)
      end in
    match natural 10 (int_part +:+ frac_part), exponent_part r2 with
    | Some d, Some x =>
        let x := x - Z.of_nat (String.length frac_part) in
        Some (if 0 <=? x then round_ratio negative (d * 10 ^ x) 1
              else round_ratio negative d (10 ^ (- x)))
    | _, _ => None
    end.

(** NonDecimalIntegerLiteral: [0x], [0o] or [0b] and digits, unsigned. *)
Definition radix_literal (t : string) : option Number :=
  match t with
  | String "0" (String c ds) =>
      let radix :=
        if Ascii.eqb c "x" || Ascii.eqb c "X" then 16
        else if Ascii.eqb c "o" || Ascii.eqb c "O" then 8
        else if Ascii.eqb c "b" || Ascii.eqb c "B" then 2
        else 0 in
      match natural radix ds with
      | Some n => Some (round_ratio false n 1)
      | None => None
      end
  | _ => None
  end.

(** StringToNumber: white space around the literal is dropped, nothing at
    all is 0, and what is no literal is NaN. *)
Definition StringToNumber (s : string) : Number :=
  let t := trim s in
  if String.eqb t "" then Finite 0 0
  else
    match radix_literal t with
    | Some n => n
    | None =>
        match decimal_literal t with
        | Some n => n
        | None => NaN
        end
    end.

(* --------------------------------------------------------------------- *)
(** *** Values *)

#[warnings="-register-all"]
Inductive JsValue : Type :=
  | JUndefined
  | JNull
  | JBool (b : bool)
  | JNum (n : Z)
  | JStr (s : string)
  | JArr (items : list JsValue)
  | JObj (props : list (string * JsValue)).

(** Own property [k] of an object parsed from JSON. *)
Fixpoint own (props : list (string * JsValue)) (k : string) : option JsValue :=
  match props with
  | [] => None
  | (k', v) :: rest => if String.eqb k' k then Some v else own rest k
  end.

(** [o.k] for a property [k] that [Object.prototype] does not define. *)
Definition prop (props : list (string * JsValue)) (k : string) : JsValue :=
  match own props k with
  | Some v => v
  | None => JUndefined
  end.

(** ToBoolean. *)
Definition truthy (v : JsValue) : bool :=
  match v with
  | JUndefined | JNull => false
  | JBool b => b
  | JNum n => negb (n =? 0)
  | JStr s => negb (String.eqb s "")
  | JArr _ | JObj _ => true
  end.

(** ToString.  An array joins its elements with a comma, [undefined] and
    [null] elements giving the empty string.  An object parsed from JSON has
    no callable property of its own: with an own [toString] neither method of
    OrdinaryToPrimitive yields a primitive and the conversion throws,
    otherwise [Object.prototype.toString] answers. *)
Fixpoint ToString (v : JsValue) : Outcome string :=
  match v with
  | JUndefined => Ret "undefined"
  | JNull => Ret "null"
  | JBool b => Ret (if b then "true" else "false")
  | JNum n => Ret (NumberToString n)
  | JStr s => Ret s
  | JArr items =>
      let element x :=
        match x with
        | JUndefined | JNull => Ret ""
        | _ => ToString x
        end in
      (fix go (l : list JsValue) : Outcome string :=
         match l with
         | [] => Ret ""
         | [x] => element x
         | x :: l' => do a <- element x ;; do b <- go l' ;; Ret (a +:+ "," +:+ b)
         end) items
  | JObj props =>
      match own props "toString" with
      | Some _ => Throw TypeError
      | None => Ret "[object Object]"
      end
  end.

(** ToNumber.  An array or an object is first turned into a string, as
    ToString does it. *)
Definition ToNumber (v : JsValue) : Outcome Number :=
  match v with
  | JUndefined => Ret NaN
  | JNull => Ret (Finite 0 0)
  | JBool b => Ret (Finite (if b then 1 else 0) 0)
  | JNum n => Ret (number_of_int n)
  | JStr s => Ret (StringToNumber s)
  | JArr _ | JObj _ => do s <- ToString v ;; Ret (StringToNumber s)
  end.

(** [v < k] and [v > k] for an integer literal [k]. *)
Definition lt_num (v : JsValue) (k : Z) : Outcome bool :=
  do n <- ToNumber v ;; Ret (num_lt n (Finite k 0)).
Definition gt_num (v : JsValue) (k : Z) : Outcome bool :=
  do n <- ToNumber v ;; Ret (num_lt (Finite k 0) n).

(** [v.length]. *)
Definition get_length (v : JsValue) : Outcome JsValue :=
  match v with
  | JUndefined | JNull => Throw TypeError
  | JBool _ | JNum _ => Ret JUndefined
  | JStr s => Ret (JNum (Z.of_nat (String.length s)))
  | JArr items => Ret (JNum (Z.of_nat (List.length items)))
  | JObj props => Ret (prop props "length")
  end.

(** [v.trim()]: only a string has the method. *)
Definition call_trim (v : JsValue) : Outcome string :=
  match v with
  | JStr s => Ret (trim s)
  | _ => Throw TypeError
  end.

(** [re.test(v)] for a pattern anchored at both ends. *)
Definition test (re : regex) (v : JsValue) : Outcome bool :=
  do s <- ToString v ;; Ret (matches re s).

(** [list.includes(v)] for a list of string literals. *)
Definition includes_value (l : list string) (v : JsValue) : bool :=
  match v with
  | JStr s => existsb (String.eqb s) l
  | _ => false
  end.

End Js.

Import Js.

(* ===================================================================== *)
(** ** The validation helper *)
(* ===================================================================== *)

(** [/^[^\s@]+@[^\s@]+\.[^\s@]+$/] *)
Definition email_re : regex :=
  let word := RPlus (RClass (λ c, negb (is_space c || Ascii.eqb c "@"))) in
  RCat word (RCat (RChar "@") (RCat word (RCat (RChar ".") word))).

(** [/^\d{10}$/] *)
Definition phone_re : regex := RRepeat 10 (RClass is_digit).

Definition validRoles : list string := ["Admin"; "User"; "Guest"].

Definition full_name_message : string :=
  "Full Name must be between 2 and 50 characters".
Definition email_message : string := "A valid email is required".
Definition phone_message : string := "Phone must be exactly 10 digits".
Definition role_message : string := "Role must be Admin, User, or Guest".
Definition password_message : string :=
  "Password must be at least 8 characters".

(** [errors.push(msg)] under a condition. *)
Definition push_if (c : bool) (errors : list string) (msg : string) : list string :=
  if c then errors ++ [msg] else errors.

(** [validateUser(data, isUpdate = false)]; [data] is given by the
    properties of the parsed request body. *)
Definition validateUser (data : list (string * JsValue)) (isUpdate : bool)
  : Outcome (list string) :=
  let errors := [] in
  do c <- Ret (negb (truthy (prop data "full_name")))
      ||| (do t <- call_trim (prop data "full_name") ;;
           Ret (String.length t <? 2)%nat)
      ||| (do t <- call_trim (prop data "full_name") ;;
           Ret (50 <? String.length t)%nat) ;;
  let errors := push_if c errors full_name_message in
  do c <- Ret (negb (truthy (prop data "email")))
      ||| (do m <- test email_re (prop data "email") ;; Ret (negb m)) ;;
  let errors := push_if c errors email_message in
  do c <- Ret (negb (truthy (prop data "phone")))
      ||| (do m <- test phone_re (prop data "phone") ;; Ret (negb m)) ;;
  let errors := push_if c errors phone_message in
  do c <- Ret (negb (truthy (prop data "role")))
      ||| Ret (negb (includes_value validRoles (prop data "role"))) ;;
  let errors := push_if c errors role_message in
  do c <- Ret (negb isUpdate)
      &&& (Ret (negb (truthy (prop data "password")))
           ||| (do n <- get_length (prop data "password") ;; lt_num n 8)) ;;
  let errors := push_if c errors password_message in
  do c <- Ret isUpdate
      &&& Ret (truthy (prop data "password"))
      &&& (do n <- get_length (prop data "password") ;; gt_num n 0)
      &&& (do n <- get_length (prop data "password") ;; lt_num n 8) ;;
  let errors := push_if c errors password_message in
  Ret errors.

(* ===================================================================== *)
(** ** The [users] table *)
(* ===================================================================== *)

(** A row without its id.  [full_name], [email] and [phone] are always bound
    to the result of a [trim()], a string; [role] and [password] are bound to
    the request's own values. *)
Record UserRow : Type := {
  full_name : string;
  email : string;
  phone : string;
  role : JsValue;
  password : JsValue
}.

(** The table and the [sqlite_sequence] entry AUTOINCREMENT keeps for it. *)
Record Db : Type := {
  users : gmap Z UserRow;
  users_seq : Z
}.

Definition empty_db : Db := {| users := ∅; users_seq := 0 |}.

Record DbError : Type := { message : string }.

Definition unique_failed : DbError :=
  {| message := "SQLITE_CONSTRAINT: UNIQUE constraint failed: users.email" |}.

(** Some row other than [except] holds the email [e]. *)
Definition email_taken (t : gmap Z UserRow) (e : string) (except : option Z) : bool :=
  existsb (λ kr : Z * UserRow,
             String.eqb (email kr.2) e && negb (bool_decide (Some kr.1 = except)))
          (map_to_list t).

Definition max_rowid (t : gmap Z UserRow) : Z :=
  foldr (λ (kr : Z * UserRow) acc, Z.max kr.1 acc) 0 (map_to_list t).

(** [INSERT INTO users (full_name, email, phone, role, password) VALUES ...]:
    the UNIQUE constraint on [email], then a row id larger than every id the
    table has ever held (ids are unbounded here; SQLite stops at 2^63-1).
    Yields the error or [lastID]. *)
Definition run_insert (r : UserRow) (db : Db) : (DbError + Z) * Db :=
  if email_taken (users db) (email r) None then (inl unique_failed, db)
  else
    let id := Z.max (max_rowid (users db)) (users_seq db) + 1 in
    (inr id, {| users := <[id := r]> (users db); users_seq := id |}).

(** [UPDATE users SET full_name = ?, email = ?, phone = ?, role = ?
    [, password = ?] WHERE id = ?]; the password column is set only by the
    longer statement. *)
Definition run_update (r : UserRow) (set_password : bool) (id : Z) (db : Db)
  : option DbError * Db :=
  match users db !! id with
  | None => (None, db)
  | Some old =>
      if email_taken (users db) (email r) (Some id) then (Some unique_failed, db)
      else
        let new := {| full_name := full_name r; email := email r;
                      phone := phone r; role := role r;
                      password := if set_password then password r
                                  else password old |} in
        (None, {| users := <[id := new]> (users db); users_seq := users_seq db |})
  end.

(** [DELETE FROM users WHERE id = ?], with the number of rows changed. *)
Definition run_delete (id : Z) (db : Db) : nat * Db :=
  match users db !! id with
  | None => (O, db)
  | Some _ => (1%nat, {| users := delete id (users db); users_seq := users_seq db |})
  end.

(** [ORDER BY id DESC]. *)
Definition id_desc (a b : Z * UserRow) : Prop := b.1 ≤ a.1.

#[global] Instance id_desc_dec : RelDecision id_desc.
Proof. intros a b. unfold id_desc. apply _. Defined.

(** [SELECT id, full_name, email, phone, role FROM users ORDER BY id DESC],
    each row as the object the driver builds for it. *)
Definition row_object (kr : Z * UserRow) : JsValue :=
  JObj [("id", JNum kr.1); ("full_name", JStr (full_name kr.2));
        ("email", JStr (email kr.2)); ("phone", JStr (phone kr.2));
        ("role", role kr.2)].

Definition select_all (db : Db) : list JsValue :=
  row_object <$> merge_sort id_desc (map_to_list (users db)).

(* ===================================================================== *)
(** ** The request handlers *)
(* ===================================================================== *)

(** [res.status(s).json(b)].  A handler that throws answers nothing itself;
    what the framework then does is outside the program. *)
Record Response : Type := { status : Z; body : JsValue }.

Definition json (s : Z) (b : JsValue) : Response := {| status := s; body := b |}.
Definition error_body (msg : string) : JsValue := JObj [("error", JStr msg)].
Definition message_body (msg : string) : JsValue := JObj [("message", JStr msg)].

(** A handler runs on the database and leaves the database behind. *)
Definition Handler : Type := Db → Outcome Response * Db.

(** The first four parameters of both statements, evaluated left to right:
    [full_name.trim(), email.trim().toLowerCase(), phone.trim(), role]. *)
Definition bind_params (req : list (string * JsValue)) : Outcome UserRow :=
  do fn <- call_trim (prop req "full_name") ;;
  do em <- call_trim (prop req "email") ;;
  do ph <- call_trim (prop req "phone") ;;
  Ret {| full_name := fn; email := toLowerCase em; phone := ph;
         role := prop req "role"; password := prop req "password" |}.

(** [{ id: this.lastID, full_name, email, phone, role }], the fields as the
    request had them. *)
Definition created_body (lastID : Z) (req : list (string * JsValue)) : JsValue :=
  JObj [("id", JNum lastID); ("full_name", prop req "full_name");
        ("email", prop req "email"); ("phone", prop req "phone");
        ("role", prop req "role")].

(** [password && password.length > 0], which chooses between the two UPDATE
    statements. *)
Definition password_given (req : list (string * JsValue)) : Outcome bool :=
  Ret (truthy (prop req "password"))
  &&& (do n <- get_length (prop req "password") ;; gt_num n 0).

(** [app.get('/api/users', ...)] *)
Definition get_users : Handler := λ db,
  (Ret (json 200 (JArr (select_all db))), db).

(** [app.post('/api/users', ...)] *)
Definition post_users (req : list (string * JsValue)) : Handler := λ db,
  match validateUser req false with
  | Throw e => (Throw e, db)
  | Ret errors =>
      if (0 <? length errors)%nat
      then (Ret (json 400 (error_body (join ", " errors))), db)
      else
        match bind_params req with
        | Throw e => (Throw e, db)
        | Ret params =>
            match run_insert params db with
            | (inl err, db') =>
                if includes (message err) "UNIQUE constraint failed"
                then (Ret (json 400 (error_body "Email already exists")), db')
                else (Ret (json 500 (error_body "Failed to add user")), db')
            | (inr lastID, db') =>
                (Ret (json 201 (created_body lastID req)), db')
            end
        end
  end.

(** [app.put('/api/users/:id', ...)]; [id] is the row id the path parameter
    denotes. *)
Definition put_users (id : Z) (req : list (string * JsValue)) : Handler := λ db,
  match validateUser req true with
  | Throw e => (Throw e, db)
  | Ret errors =>
      if (0 <? length errors)%nat
      then (Ret (json 400 (error_body (join ", " errors))), db)
      else
        match users db !! id with
        | None => (Ret (json 404 (error_body "User not found")), db)
        | Some _ =>
            match
              (do with_password <- password_given req ;;
               do params <- bind_params req ;;
               Ret (with_password, params))
            with
            | Throw e => (Throw e, db)
            | Ret (with_password, params) =>
                match run_update params with_password id db with
                | (Some err, db') =>
                    if includes (message err) "UNIQUE constraint failed"
                    then (Ret (json 400 (error_body "Email already exists")), db')
                    else (Ret (json 500 (error_body "Failed to update user")), db')
                | (None, db') =>
                    (Ret (json 200 (message_body "User updated successfully")), db')
                end
            end
        end
  end.

(** [app.delete('/api/users/:id', ...)] *)
Definition delete_users (id : Z) : Handler := λ db,
  match run_delete id db with
  | (O, db') => (Ret (json 404 (error_body "User not found")), db')
  | (_, db') => (Ret (json 200 (message_body "User deleted successfully")), db')
  end.

(** The requests of the user API and their routing. *)
Inductive Request : Type :=
  | GET_users
  | POST_users (req : list (string * JsValue))
  | PUT_users (id : Z) (req : list (string * JsValue))
  | DELETE_users (id : Z).

Definition handle (r : Request) : Handler :=
  match r with
  | GET_users => get_users
  | POST_users req => post_users req
  | PUT_users id req => put_users id req
  | DELETE_users id => delete_users id
  end.

(* ===================================================================== *)
(** ** The [contact_messages] table and its handlers *)
(* ===================================================================== *)

Module Contacts.

Definition validSubjects : list string :=
  ["General"; "Support"; "Feedback"; "Other"].

Definition name_message : string := "Name must be between 2 and 50 characters".
Definition subject_message : string :=
  "Subject must be General, Support, Feedback, or Other".
Definition message_message : string :=
  "Message must be between 10 and 1000 characters".

(** The checks at the head of [app.post('/api/contacts', ...)], on the four
    fields taken out of the request body. *)
Definition contact_errors (req : list (string * JsValue)) : Outcome (list string) :=
  let errors := [] in
  do c <- Ret (negb (truthy (prop req "name")))
      ||| (do t <- call_trim (prop req "name") ;; Ret (String.length t <? 2)%nat)
      ||| (do t <- call_trim (prop req "name") ;; Ret (50 <? String.length t)%nat) ;;
  let errors := push_if c errors name_message in
  do c <- Ret (negb (truthy (prop req "email")))
      ||| (do m <- test email_re (prop req "email") ;; Ret (negb m)) ;;
  let errors := push_if c errors email_message in
  do c <- Ret (negb (truthy (prop req "subject")))
      ||| Ret (negb (includes_value validSubjects (prop req "subject"))) ;;
  let errors := push_if c errors subject_message in
  do c <- Ret (negb (truthy (prop req "message")))
      ||| (do t <- call_trim (prop req "message") ;; Ret (String.length t <? 10)%nat)
      ||| (do t <- call_trim (prop req "message") ;;
           Ret (1000 <? String.length t)%nat) ;;
  let errors := push_if c errors message_message in
  Ret errors.

(** The error of an insert when no row id is left. *)
Definition table_full : DbError :=
  {| message := "SQLITE_FULL: database or disk is full" |}.

(** A row without its id; [created_at] is the column the database fills. *)
Record Row : Type := {
  name : string;
  email : string;
  subject : JsValue;
  message : string;
  created_at : string
}.

Record Table : Type := {
  contact_messages : gmap Z Row;
  contact_messages_seq : Z
}.

Definition empty_table : Table :=
  {| contact_messages := ∅; contact_messages_seq := 0 |}.

Definition max_rowid (t : gmap Z Row) : Z :=
  foldr (λ (kr : Z * Row) acc, Z.max kr.1 acc) 0 (map_to_list t).

(** [INSERT INTO contact_messages (name, email, subject, message) VALUES
    (?, ?, ?, ?)] at the time [now], which CURRENT_TIMESTAMP puts into
    [created_at].  AUTOINCREMENT gives the row an id above every id the table
    has ever held, and refuses the insert once the largest row id, 2^63-1,
    has been used; the table has no other constraint an insert of four
    non-null values can break.  Yields the error or [lastID]. *)
Definition run_insert (now : string) (params : string * string * JsValue * string)
    (t : Table) : (DbError + Z) * Table :=
  let '(n, e, s, m) := params in
  let largest := Z.max (max_rowid (contact_messages t)) (contact_messages_seq t) in
  if 2 ^ 63 - 1 <=? largest then (inl table_full, t)
  else
    let id := largest + 1 in
    (inr id,
     {| contact_messages :=
          <[id := {| name := n; email := e; subject := s; message := m;
                     created_at := now |}]> (contact_messages t);
        contact_messages_seq := id |}).

(** [DELETE FROM contact_messages WHERE id = ?], with the number of rows
    changed. *)
Definition run_delete (id : Z) (t : Table) : nat * Table :=
  match contact_messages t !! id with
  | None => (O, t)
  | Some _ =>
      (1%nat, {| contact_messages := delete id (contact_messages t);
                 contact_messages_seq := contact_messages_seq t |})
  end.

Definition id_desc (a b : Z * Row) : Prop := b.1 ≤ a.1.

#[global] Instance contact_id_desc_dec : RelDecision id_desc.
Proof. intros a b. unfold id_desc. apply _. Defined.

(** [SELECT * FROM contact_messages ORDER BY id DESC]. *)
Definition row_object (kr : Z * Row) : JsValue :=
  JObj [("id", JNum kr.1); ("name", JStr (name kr.2));
        ("email", JStr (email kr.2)); ("subject", subject kr.2);
        ("message", JStr (message kr.2));
        ("created_at", JStr (created_at kr.2))].

Definition select_all (t : Table) : list JsValue :=
  row_object <$> merge_sort id_desc (map_to_list (contact_messages t)).

Definition Handler : Type := Table → Outcome Response * Table.

(** [[name.trim(), email.trim().toLowerCase(), subject, message.trim()]] *)
Definition bind_params (req : list (string * JsValue))
  : Outcome (string * string * JsValue * string) :=
  do n <- call_trim (prop req "name") ;;
  do e <- call_trim (prop req "email") ;;
  do m <- call_trim (prop req "message") ;;
  Ret (n, toLowerCase e, prop req "subject", m).

(** [{ id: this.lastID, name, email, subject, message }] *)
Definition created_body (lastID : Z) (req : list (string * JsValue)) : JsValue :=
  JObj [("id", JNum lastID); ("name", prop req "name");
        ("email", prop req "email"); ("subject", prop req "subject");
        ("message", prop req "message")].

(** [app.get('/api/contacts', ...)] *)
Definition get_contacts : Handler := λ t,
  (Ret (json 200 (JArr (select_all t))), t).

(** [app.post('/api/contacts', ...)], run when the clock reads [now]. *)
Definition post_contacts (now : string) (req : list (string * JsValue)) : Handler :=
  λ t,
  match contact_errors req with
  | Throw e => (Throw e, t)
  | Ret errors =>
      if (0 <? length errors)%nat
      then (Ret (json 400 (error_body (join ", " errors))), t)
      else
        match bind_params req with
        | Throw e => (Throw e, t)
        | Ret params =>
            match run_insert now params t with
            | (inl _, t') =>
                (Ret (json 500 (error_body "Failed to save message")), t')
            | (inr lastID, t') =>
                (Ret (json 201 (created_body lastID req)), t')
            end
        end
  end.

(** [app.delete('/api/contacts/:id', ...)] *)
Definition delete_contacts (id : Z) : Handler := λ t,
  match run_delete id t with
  | (O, t') => (Ret (json 404 (error_body "Message not found")), t')
  | (_, t') => (Ret (json 200 (message_body "Message deleted successfully")), t')
  end.

Inductive Request : Type :=
  | GET_contacts
  | POST_contacts (now : string) (req : list (string * JsValue))
  | DELETE_contacts (id : Z).

Definition handle (r : Request) : Handler :=
  match r with
  | GET_contacts => get_contacts
  | POST_contacts now req => post_contacts now req
  | DELETE_contacts id => delete_contacts id
  end.

Fixpoint run (rs : list Request) (t : Table) : Table :=
  match rs with
  | [] => t
  | r :: rs' => run rs' (handle r t).2
  end.

End Contacts.

(* ===================================================================== *)
(** ** Vocabulary of the properties *)
(* ===================================================================== *)

(** The six conditions of [validateUser], in the order it evaluates them. *)
Definition bad_full_name (data : list (string * JsValue)) : Outcome bool :=
  Ret (negb (truthy (prop data "full_name")))
  ||| (do t <- call_trim (prop data "full_name") ;; Ret (String.length t <? 2)%nat)
  ||| (do t <- call_trim (prop data "full_name") ;; Ret (50 <? String.length t)%nat).

Definition bad_email (data : list (string * JsValue)) : Outcome bool :=
  Ret (negb (truthy (prop data "email")))
  ||| (do m <- test email_re (prop data "email") ;; Ret (negb m)).

Definition bad_phone (data : list (string * JsValue)) : Outcome bool :=
  Ret (negb (truthy (prop data "phone")))
  ||| (do m <- test phone_re (prop data "phone") ;; Ret (negb m)).

Definition bad_role (data : list (string * JsValue)) : Outcome bool :=
  Ret (negb (truthy (prop data "role")))
  ||| Ret (negb (includes_value validRoles (prop data "role"))).

Definition bad_password_create (data : list (string * JsValue)) (isUpdate : bool)
  : Outcome bool :=
  Ret (negb isUpdate)
  &&& (Ret (negb (truthy (prop data "password")))
       ||| (do n <- get_length (prop data "password") ;; lt_num n 8)).

Definition bad_password_update (data : list (string * JsValue)) (isUpdate : bool)
  : Outcome bool :=
  Ret isUpdate
  &&& Ret (truthy (prop data "password"))
  &&& (do n <- get_length (prop data "password") ;; gt_num n 0)
  &&& (do n <- get_length (prop data "password") ;; lt_num n 8).

(** The strings a pattern denotes. *)
Inductive in_lang : regex → string → Prop :=
  | in_eps : in_lang REps ""
  | in_class p c : p c = true → in_lang (RClass p) (String c "")
  | in_cat r1 r2 s1 s2 :
      in_lang r1 s1 → in_lang r2 s2 → in_lang (RCat r1 r2) (s1 +:+ s2)
  | in_alt_l r1 r2 s : in_lang r1 s → in_lang (RAlt r1 r2) s
  | in_alt_r r1 r2 s : in_lang r2 s → in_lang (RAlt r1 r2) s
  | in_star_nil r : in_lang (RStar r) ""
  | in_star_more r s1 s2 :
      in_lang r s1 → in_lang (RStar r) s2 → in_lang (RStar r) (s1 +:+ s2).

(** Every character class of the pattern lies within [P]. *)
Fixpoint classes_within (P : ascii → bool) (r : regex) : Prop :=
  match r with
  | RNone | REps => True
  | RClass p => ∀ c, p c = true → P c = true
  | RCat r1 r2 | RAlt r1 r2 => classes_within P r1 ∧ classes_within P r2
  | RStar r1 => classes_within P r1
  end.

(** A field the request leaves out, or sets to [null]. *)
Definition missing (v : JsValue) : Prop := v = JUndefined ∨ v = JNull.

(** A value the conversion to a string accepts: anything but an object with
    a [toString] property of its own (which JSON cannot make callable), alone
    or within an array. *)
Fixpoint convertible (v : JsValue) : bool :=
  match v with
  | JArr items => forallb convertible items
  | JObj props =>
      match own props "toString" with
      | Some _ => false
      | None => true
      end
  | _ => true
  end.

(** A record [validateUser] gets through: [full_name] is falsy or a string
    (it is trimmed), [email] and [phone] are convertible (they are matched
    against a pattern), and so is the [length] of a [password] object (it is
    compared with a number). *)
Definition checkable (data : list (string * JsValue)) : bool :=
  (negb (truthy (prop data "full_name"))
   || match prop data "full_name" with JStr _ => true | _ => false end)
  && convertible (prop data "email")
  && convertible (prop data "phone")
  && match prop data "password" with
     | JObj props => convertible (prop props "length")
     | _ => true
     end.

(** The passwords that get the password message, kind by kind.  A string
    counts by its characters and an array by its elements; an object by the
    number its own [length] converts to; a boolean or a number has no
    length, so only the falsy ones are refused, and only on create. *)
Definition password_refused (isUpdate : bool) (pw : JsValue) : Prop :=
  match pw with
  | JUndefined | JNull => isUpdate = false
  | JBool b => isUpdate = false ∧ b = false
  | JNum n => isUpdate = false ∧ n = 0
  | JStr s => (String.length s < 8)%nat ∧ (isUpdate = true → s ≠ "")
  | JArr items => (length items < 8)%nat ∧ (isUpdate = true → items ≠ [])
  | JObj props =>
      ∃ x, ToNumber (prop props "length") = Ret x
           ∧ num_lt x (Finite 8 0) = true
           ∧ (isUpdate = true → num_lt (Finite 0 0) x = true)
  end.

Fixpoint all_chars (p : ascii → bool) (s : string) : bool :=
  match s with
  | EmptyString => true
  | String c s' => p c && all_chars p s'
  end.

Definition first_char (s : string) : option ascii :=
  match s with
  | EmptyString => None
  | String c _ => Some c
  end.

Fixpoint last_char (s : string) : option ascii :=
  match s with
  | EmptyString => None
  | String c EmptyString => Some c
  | String _ s' => last_char s'
  end.

Definition is_space_opt (c : option ascii) : bool :=
  match c with
  | Some c => is_space c
  | None => false
  end.

(** No uppercase letter, and no whitespace at either end. *)
Definition normalised (e : string) : Prop :=
  all_chars (λ c, negb (is_upper c)) e = true
  ∧ is_space_opt (first_char e) = false
  ∧ is_space_opt (last_char e) = false.

Definition emails_normalised (db : Db) : Prop :=
  ∀ k r, users db !! k = Some r → normalised (email r).

(** The email string a request carries, if it carries one. *)
Definition request_email (r : Request) : option string :=
  match r with
  | POST_users req | PUT_users _ req =>
      match prop req "email" with
      | JStr e => Some e
      | _ => None
      end
  | GET_users | DELETE_users _ => None
  end.

(** The UNIQUE constraint, as a property of the table. *)
Definition emails_unique (db : Db) : Prop :=
  ∀ k1 k2 r1 r2,
    users db !! k1 = Some r1 → users db !! k2 = Some r2 →
    email r1 = email r2 → k1 = k2.

(** The database after a sequence of requests, first request first. *)
Fixpoint run (rs : list Request) (db : Db) : Db :=
  match rs with
  | [] => db
  | r :: rs' => run rs' (handle r db).2
  end.


(** The list [validateUser] returns when its six conditions come out as
    [c1] .. [c6]. *)
Definition errors_of (c1 c2 c3 c4 c5 c6 : bool) : list string :=
  push_if c6
    (push_if c5
       (push_if c4
          (push_if c3
             (push_if c2 (push_if c1 [] full_name_message) email_message)
             phone_message)
          role_message)
       password_message)
    password_message.

(** Sample requests. *)
Definition alice : list (string * JsValue) :=
  [("full_name", JStr " Alice Smith "); ("email", JStr "Alice@Example.COM");
   ("phone", JStr "1234567890"); ("role", JStr "Admin");
   ("password", JStr "secret123")].

Definition alice_row : UserRow :=
  {| full_name := "Alice Smith"; email := "alice@example.com";
     phone := "1234567890"; role := JStr "Admin"; password := JStr "secret123" |}.

Definition alice_db : Db := {| users := {[ 1 := alice_row ]}; users_seq := 1 |}.

(** The request [req] with its field [k] set to [v]. *)
Definition with_field (k : string) (v : JsValue) (req : list (string * JsValue))
  : list (string * JsValue) :=
  (k, v) :: List.filter (λ kv, negb (String.eqb kv.1 k)) req.

Fixpoint spaces (n : nat) : string :=
  match n with
  | O => ""
  | S n' => String " " (spaces n')
  end.

(** An update that leaves the password out, and one that sets it. *)
Definition alice_as_guest : list (string * JsValue) :=
  [("full_name", JStr "Alice S."); ("email", JStr "alice@example.com");
   ("phone", JStr "0987654321"); ("role", JStr "Guest"); ("password", JStr "")].


(** A name of 51 characters, 49 of them trailing blanks. *)
Definition padded_name : string := "Al" +:+ spaces 49.

(** The request was carried out: it was answered 200 or 201. *)
Definition succeeded (o : Outcome Response) : bool :=
  match o with
  | Ret r => (status r =? 200) || (status r =? 201)
  | _ => false
  end.

(** A character the email pattern lets into a word: no whitespace, no [@]. *)
Definition email_char (c : ascii) : bool := negb (is_space c || Ascii.eqb c "@").

Definition email_word (s : string) : Prop :=
  s ≠ "" ∧ all_chars email_char s = true.

(** [word@word.word] *)
Definition email_form (e : string) : Prop :=
  ∃ a b c, e = a +:+ "@" +:+ b +:+ "." +:+ c
           ∧ email_word a ∧ email_word b ∧ email_word c.

Definition ten_digits (s : string) : Prop :=
  String.length s = 10%nat ∧ all_chars is_digit s = true.

(** The messages of [validateUser], in the order it pushes them. *)
Definition five_messages : list string :=
  [full_name_message; email_message; phone_message; role_message;
   password_message].

(** SQLite's [length(X)] of a text value: its characters up to the first
    NUL.  On the strings of this development a character is a code unit, so
    that without a NUL this is the [length] of JavaScript; beyond them the
    two part (a character above U+FFFF is two code units). *)
Fixpoint sql_length (s : string) : nat :=
  match s with
  | EmptyString => O
  | String c s' => if (code c =? 0)%N then O else S (sql_length s')
  end.

Definition no_nul (s : string) : Prop :=
  all_chars (λ c, negb (code c =? 0)%N) s = true.

(** The CHECK constraints the [users] table gets from the migration script
    that declares them ([src/unnamed/part_000]), on four text columns:
    [length(full_name) BETWEEN 2 AND 50], [length(phone) = 10],
    [role IN ('Admin', 'User', 'Guest')], [length(password) >= 8]. *)
Definition migration_checks (fn ph rl pw : string) : bool :=
  (2 <=? sql_length fn)%nat && (sql_length fn <=? 50)%nat
  && (sql_length ph =? 10)%nat
  && bool_decide (rl ∈ ["Admin"; "User"; "Guest"])
  && (8 <=? sql_length pw)%nat.

(** A name of two characters, the second one NUL. *)
Definition nul_name : string := String "A" (String (ascii_of_N 0) "").

(** The conditions of the contact form, in the order they are evaluated;
    the email condition is [bad_email]. *)
Definition contact_bad_name (req : list (string * JsValue)) : Outcome bool :=
  Ret (negb (truthy (prop req "name")))
  ||| (do t <- call_trim (prop req "name") ;; Ret (String.length t <? 2)%nat)
  ||| (do t <- call_trim (prop req "name") ;; Ret (50 <? String.length t)%nat).

Definition contact_bad_subject (req : list (string * JsValue)) : Outcome bool :=
  Ret (negb (truthy (prop req "subject")))
  ||| Ret (negb (includes_value Contacts.validSubjects (prop req "subject"))).

Definition contact_bad_message (req : list (string * JsValue)) : Outcome bool :=
  Ret (negb (truthy (prop req "message")))
  ||| (do t <- call_trim (prop req "message") ;; Ret (String.length t <? 10)%nat)
  ||| (do t <- call_trim (prop req "message") ;;
       Ret (1000 <? String.length t)%nat).

Definition contact_errors_of (c1 c2 c3 c4 : bool) : list string :=
  push_if c4
    (push_if c3
       (push_if c2 (push_if c1 [] Contacts.name_message) email_message)
       Contacts.subject_message)
    Contacts.message_message.

(** A contact request, and the table after it was posted once. *)
Definition hello : list (string * JsValue) :=
  [("name", JStr " Bob "); ("email", JStr "Bob@Example.com");
   ("subject", JStr "Support"); ("message", JStr "  Please call me back.  ")].

Definition hello_row (now : string) : Contacts.Row :=
  {| Contacts.name := "Bob"; Contacts.email := "bob@example.com";
     Contacts.subject := JStr "Support";
     Contacts.message := "Please call me back."; Contacts.created_at := now |}.

Definition hello_table : Contacts.Table :=
  {| Contacts.contact_messages := {[ 1 := hello_row "2024-05-01 10:00:00" ]};
     Contacts.contact_messages_seq := 1 |}.

(** Every id of the table is at most the AUTOINCREMENT counter. *)
Definition contact_ids_covered (t : Contacts.Table) : Prop :=
  ∀ k, is_Some (Contacts.contact_messages t !! k) →
       k ≤ Contacts.contact_messages_seq t.


(** Row ids are left: neither the AUTOINCREMENT counter nor a row of the
    table has reached the largest row id, 2^63-1. *)
Definition contact_ids_remain (t : Contacts.Table) : Prop :=
  Contacts.contact_messages_seq t < 2 ^ 63 - 1
  ∧ map_Forall (λ k _, k < 2 ^ 63 - 1) (Contacts.contact_messages t).

#[global] Instance contact_ids_remain_dec t : Decision (contact_ids_remain t).
Proof. unfold contact_ids_remain. apply _. Defined.

(** A table whose counter stands at the largest row id. *)
Definition used_up_table : Contacts.Table :=
  {| Contacts.contact_messages := ∅; Contacts.contact_messages_seq := 2 ^ 63 - 1 |}.

(** Alice with her phone sent as a number, and with no password. *)
Definition alice_numeric_phone : list (string * JsValue) :=
  with_field "phone" (JNum 1234567890) alice.

Definition alice_no_password : list (string * JsValue) :=
  with_field "password" (JStr "") alice.

(** The table after Alice was created, deleted and created again. *)
Definition alice_again_db : Db :=
  {| users := {[ 2 := alice_row ]}; users_seq := 2 |}.

(* ===================================================================== *)
(** ** Strings *)
(* ===================================================================== *)

Section strings.

Lemma lower_char_not_upper c : is_upper (lower_char c) = false.
Proof. by destruct c as [[] [] [] [] [] [] [] []]. Qed.

Lemma lower_char_space c : is_space (lower_char c) = is_space c.
Proof. by destruct c as [[] [] [] [] [] [] [] []]. Qed.

Lemma toLowerCase_lowercase s :
  all_chars (λ c, negb (is_upper c)) (toLowerCase s) = true.
Proof.
  induction s as [|c s IH]; [done|].
  cbn [toLowerCase all_chars]. by rewrite lower_char_not_upper, IH.
Qed.

Lemma first_char_toLowerCase s :
  is_space_opt (first_char (toLowerCase s)) = is_space_opt (first_char s).
Proof. destruct s; [done|]. apply lower_char_space. Qed.

Lemma last_char_toLowerCase s :
  is_space_opt (last_char (toLowerCase s)) = is_space_opt (last_char s).
Proof.
  induction s as [|c s IH]; [done|].
  destruct s as [|c' s']; [apply lower_char_space|].
  exact IH.
Qed.

Lemma first_char_trimStart s : is_space_opt (first_char (trimStart s)) = false.
Proof.
  induction s as [|c s IH]; [done|].
  cbn [trimStart]. destruct (is_space c) eqn:E; [done|]. exact E.
Qed.

Lemma last_char_trimEnd s : is_space_opt (last_char (trimEnd s)) = false.
Proof.
  induction s as [|c s IH]; [done|].
  cbn [trimEnd]. destruct (trimEnd s) as [|c' t] eqn:E.
  - destruct (is_space c) eqn:Ec; [done|]. exact Ec.
  - exact IH.
Qed.

Lemma first_char_trimEnd s :
  is_space_opt (first_char s) = false →
  is_space_opt (first_char (trimEnd s)) = false.
Proof.
  destruct s as [|c s]; [done|]. cbn [first_char is_space_opt trimEnd].
  intros Hc. destruct (trimEnd s); [|done]. by rewrite Hc.
Qed.

Lemma trim_toLowerCase_normalised s : normalised (toLowerCase (trim s)).
Proof.
  unfold normalised, trim. split_and!.
  - apply toLowerCase_lowercase.
  - rewrite first_char_toLowerCase.
    apply first_char_trimEnd, first_char_trimStart.
  - rewrite last_char_toLowerCase. apply last_char_trimEnd.
Qed.

Lemma trimEnd_length s : (String.length (trimEnd s) ≤ String.length s)%nat.
Proof.
  induction s as [|c s IH]; [done|].
  cbn [trimEnd]. destruct (trimEnd s) as [|c' t].
  - destruct (is_space c); cbn; lia.
  - cbn in *. lia.
Qed.

Lemma trimStart_length s : (String.length (trimStart s) ≤ String.length s)%nat.
Proof.
  induction s as [|c s IH]; [done|].
  cbn [trimStart]. destruct (is_space c); cbn in *; lia.
Qed.

Lemma trim_length s : (String.length (trim s) ≤ String.length s)%nat.
Proof.
  unfold trim. etrans; [apply trimEnd_length|apply trimStart_length].
Qed.

Lemma join_concat sep l : join sep l = String.concat sep l.
Proof.
  induction l as [|x [|y l] IH]; [done..|].
  change (x +:+ sep +:+ join sep (y :: l) = x +:+ sep +:+ String.concat sep (y :: l)).
  by rewrite IH.
Qed.

End strings.

(* ===================================================================== *)
(** ** Patterns *)
(* ===================================================================== *)

Section patterns.

Implicit Types (r : regex) (s : string) (c : ascii).

Lemma append_empty s1 s2 : s1 +:+ s2 = "" → s1 = "" ∧ s2 = "".
Proof. by destruct s1. Qed.

Lemma nullable_in_lang r : nullable r = true ↔ in_lang r "".
Proof.
  split.
  - induction r as [| |p|r1 IH1 r2 IH2|r1 IH1 r2 IH2|r IH]; cbn; try done.
    + constructor.
    + intros [H1 H2]%andb_true_iff. apply (in_cat _ _ "" ""); auto.
    + intros [H|H]%orb_true_iff; [apply in_alt_l|apply in_alt_r]; auto.
    + constructor.
  - remember "" as e eqn:He. intros H.
    induction H as [|p c Hc|r1 r2 s1 s2 _ IH1 _ IH2|r1 r2 s _ IH|r1 r2 s _ IH| |];
      cbn; try done.
    + apply append_empty in He as [-> ->]. by rewrite IH1, IH2.
    + by rewrite IH.
    + rewrite IH by done. apply orb_true_r.
Qed.

(** A non-empty string of [r*] starts with a non-empty string of [r]. *)
Lemma star_head r c s :
  in_lang (RStar r) (String c s) →
  ∃ s1 s2, s = s1 +:+ s2 ∧ in_lang r (String c s1) ∧ in_lang (RStar r) s2.
Proof.
  remember (RStar r) as r' eqn:Hr. remember (String c s) as t eqn:Ht.
  intros H. revert s Ht.
  induction H as [| | | | | |r0 s1 s2 H1 _ H2 IH2]; intros t Ht; try done.
  simplify_eq. destruct s1 as [|c1 s1].
  - by apply IH2.
  - change (String c1 (s1 +:+ s2) = String c t) in Ht.
    simplify_eq. by exists s1, s2.
Qed.

Lemma deriv_in_lang c r s : in_lang (deriv c r) s ↔ in_lang r (String c s).
Proof.
  revert s.
  induction r as [| |p|r1 IH1 r2 IH2|r1 IH1 r2 IH2|r IH]; intros s; cbn.
  - split; inversion 1.
  - split; inversion 1.
  - destruct (p c) eqn:Hp; split; inversion 1; subst.
    + by constructor.
    + constructor.
    + congruence.
  - assert (Hcat : in_lang (RCat (deriv c r1) r2) s →
                   in_lang (RCat r1 r2) (String c s)).
    { inversion 1 as [| |? ? s1 s2 H1 H2| | | |]; subst.
      apply (in_cat _ _ (String c s1) s2); [by apply IH1|done]. }
    assert (Hinv : in_lang (RCat r1 r2) (String c s) →
                   in_lang (RCat (deriv c r1) r2) s
                   ∨ (in_lang r1 "" ∧ in_lang (deriv c r2) s)).
    { inversion 1 as [| |? ? s1 s2 H1 H2 E1 E2| | | |]; subst.
      destruct s1 as [|c1 s1].
      - right. split; [done|]. apply IH2.
        change (s2 = String c s) in E2. by rewrite <- E2.
      - change (String c1 (s1 +:+ s2) = String c s) in E2.
        simplify_eq. left. constructor; [by apply IH1|done]. }
    destruct (nullable r1) eqn:Hn.
    + split.
      * inversion 1; subst; [by apply Hcat|].
        apply (in_cat _ _ "" (String c s)); [by apply nullable_in_lang|].
        by apply IH2.
      * intros [H|[_ H]]%Hinv; [by apply in_alt_l|by apply in_alt_r].
    + split; [done|].
      intros [H|[H _]]%Hinv; [done|].
      apply nullable_in_lang in H. congruence.
  - split.
    + inversion 1; subst; [apply in_alt_l, IH1|apply in_alt_r, IH2]; done.
    + inversion 1; subst; [apply in_alt_l, IH1|apply in_alt_r, IH2]; done.
  - split.
    + inversion 1 as [| |? ? s1 s2 H1 H2| | | |]; subst.
      apply (in_star_more _ (String c s1) s2); [by apply IH|done].
    + intros (s1 & s2 & -> & H1 & H2)%star_head.
      constructor; [by apply IH|done].
Qed.

(** The matcher decides membership in the language of the pattern. *)
Lemma matches_in_lang r s : matches r s = true ↔ in_lang r s.
Proof.
  revert r. induction s as [|c s IH]; intros r; cbn.
  - apply nullable_in_lang.
  - by rewrite IH, deriv_in_lang.
Qed.

Lemma all_chars_append P s1 s2 :
  all_chars P (s1 +:+ s2) = all_chars P s1 && all_chars P s2.
Proof.
  induction s1 as [|c s1 IH]; [done|].
  change (all_chars P (String c (s1 +:+ s2)) = all_chars P (String c s1) && all_chars P s2).
  cbn. by rewrite IH, andb_assoc.
Qed.

Lemma in_lang_all_chars P r s :
  classes_within P r → in_lang r s → all_chars P s = true.
Proof.
  intros Hr H. induction H; cbn in *; try done.
  - by rewrite Hr.
  - rewrite all_chars_append. destruct Hr. by rewrite IHin_lang1, IHin_lang2.
  - destruct Hr. auto.
  - destruct Hr. auto.
  - rewrite all_chars_append. by rewrite IHin_lang1, IHin_lang2.
Qed.

(** A string the email pattern accepts holds no whitespace. *)
Lemma email_re_no_space s :
  matches email_re s = true → all_chars (λ c, negb (is_space c)) s = true.
Proof.
  intros H%matches_in_lang. eapply in_lang_all_chars; [|done].
  assert (Hword : ∀ c, negb (is_space c || Ascii.eqb c "@") = true →
                       negb (is_space c) = true).
  { intros c. by destruct (is_space c). }
  assert (Hchar : ∀ a c, is_space a = false → Ascii.eqb a c = true →
                         negb (is_space c) = true).
  { intros a c Ha ->%Ascii.eqb_eq. by rewrite Ha. }
  unfold email_re, RPlus, RChar. cbn [classes_within].
  split_and!; try done; intros c; [apply (Hchar "@"%char)|apply (Hchar "."%char)]; done.
Qed.

(** A string of digits has ten of them exactly when the phone pattern
    accepts it. *)
Lemma repeat_class_in_lang p n s :
  in_lang (RRepeat n (RClass p)) s ↔ String.length s = n ∧ all_chars p s = true.
Proof.
  revert s. induction n as [|n IH]; intros s; cbn.
  - split.
    + by inversion 1.
    + intros [Hl _]. destruct s; [constructor|done].
  - split.
    + inversion 1 as [| |? ? s1 s2 H1 H2| | | |]; subst.
      inversion H1 as [|? c Hc| | | | |]; subst. apply IH in H2 as [<- Hs2].
      change (String c "" +:+ s2) with (String c s2).
      split; [done|]. cbn. by rewrite Hc, Hs2.
    + intros [Hl Hs]. destruct s as [|c s]; [done|].
      cbn in Hl, Hs. apply andb_true_iff in Hs as [Hc Hs].
      apply (in_cat _ _ (String c "") s); [by constructor|].
      apply IH. split; [lia|done].
Qed.

Lemma phone_re_ten_digits s :
  matches phone_re s = true ↔ String.length s = 10%nat ∧ all_chars is_digit s = true.
Proof. unfold phone_re. by rewrite matches_in_lang, repeat_class_in_lang. Qed.

End patterns.

(* ===================================================================== *)
(** ** Numbers *)
(* ===================================================================== *)

Section numbers.

Lemma num_lt_int a b : num_lt (Finite a 0) (Finite b 0) = (a <? b).
Proof. unfold num_lt. cbn. by rewrite !Z.mul_1_r. Qed.

Lemma last_bit_int p :
  2 ^ 53 ≤ p → 0 ≤ last_bit p 1 ≤ Z.log2 p - 52.
Proof.
  intros Hp. unfold last_bit. change (Z.log2 1) with 0.
  assert (53 ≤ Z.log2 p) as Hlog.
  { change 53 with (Z.log2 (2 ^ 53)). by apply Z.log2_le_mono. }
  destruct (scaled p 1 _) as [a b]. destruct (a `div` b <? 2 ^ 53); lia.
Qed.

(** An integer of 2^53 or more rounds to an infinity or to a double of at
    least 2^52. *)
Lemma round_ratio_int negative p :
  2 ^ 53 ≤ p →
  round_ratio negative p 1 = Infinity negative
  ∨ ∃ m e, round_ratio negative p 1 = Finite (if negative then - m else m) e
           ∧ 0 ≤ e ∧ 2 ^ 52 ≤ m.
Proof.
  intros Hp. unfold round_ratio.
  destruct (Z.eqb_spec p 0) as [->|_]; [done|].
  pose proof (last_bit_int p Hp) as [He Hle].
  set (e := last_bit p 1) in *.
  unfold scaled. destruct (Z.leb_spec 0 e); [|lia].
  match goal with |- context [if ?c then Infinity _ else _] => destruct c end;
    [by left|right].
  eexists _, e. split_and!; [done|done|].
  assert (2 ^ 52 ≤ p `div` (1 * 2 ^ e)) as Hm.
  { apply Z.div_le_lower_bound; [lia|].
    assert (2 ^ e * 2 ^ 52 ≤ 2 ^ Z.log2 p).
    { rewrite <- Z.pow_add_r by lia. apply Z.pow_le_mono_r; lia. }
    pose proof (Z.log2_spec p). lia. }
  unfold round_half_even.
  match goal with |- context [if ?c then _ + 1 else _] => destruct c end; lia.
Qed.

(** Comparing the Number of an integer with a small integer is comparing
    the integers. *)
Lemma number_of_int_lt n k :
  Z.abs k < 2 ^ 52 → num_lt (number_of_int n) (Finite k 0) = (n <? k).
Proof.
  intros Hk. unfold number_of_int.
  destruct (Z.ltb_spec (Z.abs n) (2 ^ 53)); [apply num_lt_int|].
  destruct (round_ratio_int (n <? 0) (Z.abs n)) as [->|(m & e & -> & He & Hm)];
    [done|..]; cbn [num_lt].
  - destruct (Z.ltb_spec n 0), (Z.ltb_spec n k); done || lia.
  - rewrite Z.min_r, !Z.sub_0_r, Z.mul_1_r by lia.
    assert (1 ≤ 2 ^ e) by (apply (Z.pow_le_mono_r 2 0 e); lia).
    destruct (Z.ltb_spec n 0).
    + rewrite !(proj2 (Z.ltb_lt _ _)); [done|lia|nia].
    + rewrite !(proj2 (Z.ltb_ge _ _)); [done|lia|nia].
Qed.

Lemma number_of_int_gt n k :
  Z.abs k < 2 ^ 52 → num_lt (Finite k 0) (number_of_int n) = (k <? n).
Proof.
  intros Hk. unfold number_of_int.
  destruct (Z.ltb_spec (Z.abs n) (2 ^ 53)); [apply num_lt_int|].
  destruct (round_ratio_int (n <? 0) (Z.abs n)) as [->|(m & e & -> & He & Hm)];
    [done|..]; cbn [num_lt].
  - destruct (Z.ltb_spec n 0), (Z.ltb_spec k n); done || lia.
  - rewrite Z.min_l, !Z.sub_0_r, Z.mul_1_r by lia.
    assert (1 ≤ 2 ^ e) by (apply (Z.pow_le_mono_r 2 0 e); lia).
    destruct (Z.ltb_spec n 0).
    + rewrite !(proj2 (Z.ltb_ge _ _)); [done|lia|nia].
    + rewrite !(proj2 (Z.ltb_lt _ _)); [done|lia|nia].
Qed.

(** Integers beyond 2^53 are rendered as the doubles they denote. *)
Example numbers_rendered :
  NumberToString (-42) = "-42"
  ∧ NumberToString (2 ^ 53 + 1) = "9007199254740992"
  ∧ NumberToString (2 ^ 64) = "18446744073709552000"
  ∧ NumberToString (2 ^ 69) = "590295810358705700000"
  ∧ NumberToString (10 ^ 21) = "1e+21"
  ∧ NumberToString (10 ^ 23) = "1e+23"
  ∧ NumberToString (- (10 ^ 23 + 2 ^ 23)) = "-1.0000000000000001e+23"
  ∧ NumberToString (2 ^ 70) = "1.1805916207174113e+21"
  ∧ NumberToString (2 ^ 1024) = "Infinity".
Proof. by vm_compute. Qed.

(** Strings read as numbers, compared with 8. *)
Example strings_read :
  lt_num (JStr " 7.5 ") 8 = Ret true
  ∧ lt_num (JStr "7.9999999999999999") 8 = Ret false
  ∧ lt_num (JStr "0x7") 8 = Ret true
  ∧ lt_num (JStr "") 8 = Ret true
  ∧ lt_num (JStr "-Infinity") 8 = Ret true
  ∧ lt_num (JStr "seven") 8 = Ret false
  ∧ lt_num (JArr [JStr "5"]) 8 = Ret true
  ∧ lt_num (JObj []) 8 = Ret false
  ∧ lt_num (JStr "0x10") 8 = Ret false
  ∧ gt_num (JStr "0xf") 0 = Ret true
  ∧ gt_num (JStr "0b1") 0 = Ret true
  ∧ gt_num (JStr "0o7") 0 = Ret true
  ∧ gt_num (JBool true) 0 = Ret true
  ∧ gt_num (JBool false) 0 = Ret false
  ∧ lt_num JNull 8 = Ret true
  ∧ lt_num JUndefined 8 = Ret false
  ∧ gt_num (JStr "1e-400") 0 = Ret false.
Proof. by vm_compute. Qed.

Lemma lt_num_int n k : Z.abs k < 2 ^ 52 → lt_num (JNum n) k = Ret (n <? k).
Proof. intros Hk. unfold lt_num, ToNumber, bind. by rewrite number_of_int_lt. Qed.

Lemma gt_num_int n k : Z.abs k < 2 ^ 52 → gt_num (JNum n) k = Ret (k <? n).
Proof. intros Hk. unfold gt_num, ToNumber, bind. by rewrite number_of_int_gt. Qed.

End numbers.

(* ===================================================================== *)
(** ** The validator *)
(* ===================================================================== *)

Section validator.

Implicit Types (data : list (string * JsValue)) (errs : list string).

Lemma validateUser_checks data isUpdate :
  validateUser data isUpdate =
  (do c1 <- bad_full_name data ;;
   do c2 <- bad_email data ;;
   do c3 <- bad_phone data ;;
   do c4 <- bad_role data ;;
   do c5 <- bad_password_create data isUpdate ;;
   do c6 <- bad_password_update data isUpdate ;;
   Ret (errors_of c1 c2 c3 c4 c5 c6)).
Proof. reflexivity. Qed.

Lemma bind_Ret {A B} (m : Outcome A) (f : A → Outcome B) b :
  bind m f = Ret b → ∃ a, m = Ret a ∧ f a = Ret b.
Proof. destruct m; cbn; [eauto|done]. Qed.

Lemma validateUser_Ret data isUpdate errs :
  validateUser data isUpdate = Ret errs →
  ∃ c1 c2 c3 c4 c5 c6,
    bad_full_name data = Ret c1 ∧ bad_email data = Ret c2 ∧
    bad_phone data = Ret c3 ∧ bad_role data = Ret c4 ∧
    bad_password_create data isUpdate = Ret c5 ∧
    bad_password_update data isUpdate = Ret c6 ∧
    errs = errors_of c1 c2 c3 c4 c5 c6.
Proof.
  rewrite validateUser_checks. intros H.
  apply bind_Ret in H as (c1 & ? & H). apply bind_Ret in H as (c2 & ? & H).
  apply bind_Ret in H as (c3 & ? & H). apply bind_Ret in H as (c4 & ? & H).
  apply bind_Ret in H as (c5 & ? & H). apply bind_Ret in H as (c6 & ? & H).
  exists c1, c2, c3, c4, c5, c6. by simplify_eq.
Qed.

Lemma full_name_message_in c1 c2 c3 c4 c5 c6 :
  full_name_message ∈ errors_of c1 c2 c3 c4 c5 c6 ↔ c1 = true.
Proof.
  rewrite list_elem_of_In.
  destruct c1, c2, c3, c4, c5, c6; vm_compute; intuition discriminate.
Qed.

Lemma password_message_in c1 c2 c3 c4 c5 c6 :
  password_message ∈ errors_of c1 c2 c3 c4 c5 c6 ↔ c5 = true ∨ c6 = true.
Proof.
  rewrite list_elem_of_In.
  destruct c1, c2, c3, c4, c5, c6; vm_compute; intuition discriminate.
Qed.

Lemma errors_of_nil c1 c2 c3 c4 c5 c6 :
  errors_of c1 c2 c3 c4 c5 c6 = [] →
  c1 = false ∧ c2 = false ∧ c3 = false ∧ c4 = false ∧ c5 = false ∧ c6 = false.
Proof. by destruct c1, c2, c3, c4, c5, c6. Qed.

Example email_shape :
  matches email_re "a@b" = false ∧ matches email_re "a@b.com" = true.
Proof. by vm_compute. Qed.

Example phone_shape :
  matches phone_re "12345" = false ∧ matches phone_re "12345678901" = false
  ∧ matches phone_re "1234567890" = true.
Proof. by vm_compute. Qed.

(** A number converts to its digits before the pattern is tried, and an
    array to its joined elements. *)
Example test_converts :
  test phone_re (JNum 1234567890) = Ret true
  ∧ test email_re (JArr [JStr "a@b"; JStr "c.d"]) = Ret true
  ∧ test email_re (JObj [("toString", JNull)]) = Throw TypeError.
Proof. by vm_compute. Qed.

End validator.

Section validator_claims.

Implicit Types (data : list (string * JsValue)) (errs : list string).

Lemma string_eqb_empty s : String.eqb s "" = false ↔ s ≠ "".
Proof. destruct s; cbn; split; congruence. Qed.

Lemma string_length_pos s : (0 <? Z.of_nat (String.length s)) = true ↔ s ≠ "".
Proof.
  destruct s; cbn [String.length]; split; done.
Qed.

Lemma ltb_of_nat n k : (Z.of_nat n <? Z.of_nat k) = (n <? k)%nat.
Proof.
  destruct (Z.ltb_spec (Z.of_nat n) (Z.of_nat k)), (Nat.ltb_spec n k); done || lia.
Qed.

Lemma password_checks_string data isUpdate s :
  prop data "password" = JStr s →
  bad_password_create data isUpdate
    = Ret (negb isUpdate && (String.length s <? 8)%nat)
  ∧ bad_password_update data isUpdate
    = Ret (isUpdate && negb (String.eqb s "") && (String.length s <? 8)%nat).
Proof.
  intros E. unfold bad_password_create, bad_password_update. rewrite E.
  cbn [get_length]. unfold and_then, or_else. cbn [bind].
  rewrite lt_num_int, gt_num_int by reflexivity.
  change 8 with (Z.of_nat 8). rewrite ltb_of_nat.
  destruct isUpdate, s as [|c s]; done.
Qed.

Lemma password_checks_array data isUpdate items :
  prop data "password" = JArr items →
  bad_password_create data isUpdate
    = Ret (negb isUpdate && (length items <? 8)%nat)
  ∧ bad_password_update data isUpdate
    = Ret (isUpdate && (0 <? length items)%nat && (length items <? 8)%nat).
Proof.
  intros E. unfold bad_password_create, bad_password_update. rewrite E.
  cbn [get_length]. unfold and_then, or_else. cbn [bind].
  rewrite lt_num_int, gt_num_int by reflexivity.
  change 8 with (Z.of_nat 8). change 0 with (Z.of_nat 0). rewrite !ltb_of_nat.
  destruct isUpdate, items as [|x items]; done.
Qed.

Lemma password_checks_object data isUpdate props c5 c6 :
  prop data "password" = JObj props →
  bad_password_create data isUpdate = Ret c5 →
  bad_password_update data isUpdate = Ret c6 →
  ∃ x, ToNumber (prop props "length") = Ret x
       ∧ c5 = negb isUpdate && num_lt x (Finite 8 0)
       ∧ c6 = isUpdate && num_lt (Finite 0 0) x && num_lt x (Finite 8 0).
Proof.
  intros E. unfold bad_password_create, bad_password_update. rewrite E.
  cbn [get_length]. unfold and_then, or_else, lt_num, gt_num. cbn [bind truthy negb].
  destruct (ToNumber (prop props "length")) as [x|e], isUpdate; cbn [bind negb];
    try done; intros H5 H6; exists x;
    destruct (num_lt (Finite 0 0) x); by simplify_eq.
Qed.

Lemma password_checks_missing data isUpdate :
  missing (prop data "password") →
  bad_password_create data isUpdate = Ret (negb isUpdate)
  ∧ bad_password_update data isUpdate = Ret false.
Proof.
  intros [E|E]; unfold bad_password_create, bad_password_update; rewrite E;
    by destruct isUpdate.
Qed.

(** The two password checks on a boolean or a number, which has no
    [length]. *)
Lemma password_checks_no_length data isUpdate :
  (∃ b, prop data "password" = JBool b) ∨ (∃ n, prop data "password" = JNum n) →
  bad_password_create data isUpdate
    = Ret (negb isUpdate && negb (truthy (prop data "password")))
  ∧ bad_password_update data isUpdate = Ret false.
Proof.
  intros [[b E]|[n E]]; unfold bad_password_create, bad_password_update; rewrite E.
  - by destruct isUpdate, b.
  - cbn [truthy]. by destruct isUpdate, (n =? 0).
Qed.

(** The password message is in the list exactly for the passwords
    [password_refused] names. *)
Lemma password_message_by_kind data isUpdate errs :
  validateUser data isUpdate = Ret errs →
  password_message ∈ errs ↔ password_refused isUpdate (prop data "password").
Proof.
  intros (c1 & c2 & c3 & c4 & c5 & c6 & _ & _ & _ & _ & H5 & H6 & ->)%validateUser_Ret.
  rewrite password_message_in.
  destruct (prop data "password") as [| |b|n|s|items|props] eqn:E;
    cbn [password_refused].
  - destruct (password_checks_missing data isUpdate) as [E5 E6]; [by left; rewrite E|].
    rewrite E5 in H5. rewrite E6 in H6. simplify_eq. destruct isUpdate; naive_solver.
  - destruct (password_checks_missing data isUpdate) as [E5 E6]; [by right; rewrite E|].
    rewrite E5 in H5. rewrite E6 in H6. simplify_eq. destruct isUpdate; naive_solver.
  - destruct (password_checks_no_length data isUpdate) as [E5 E6]; [left; eauto|].
    rewrite E5 in H5. rewrite E6 in H6. rewrite E in H5. simplify_eq.
    destruct isUpdate, b; naive_solver.
  - destruct (password_checks_no_length data isUpdate) as [E5 E6]; [right; eauto|].
    rewrite E5 in H5. rewrite E6 in H6. rewrite E in H5. simplify_eq.
    cbn [truthy]. destruct isUpdate, (Z.eqb_spec n 0); naive_solver.
  - destruct (password_checks_string data isUpdate s E) as [E5 E6].
    rewrite E5 in H5. rewrite E6 in H6. simplify_eq.
    rewrite <- Nat.ltb_lt. destruct isUpdate, s as [|c s], (_ <? 8)%nat; naive_solver.
  - destruct (password_checks_array data isUpdate items E) as [E5 E6].
    rewrite E5 in H5. rewrite E6 in H6. simplify_eq.
    rewrite <- Nat.ltb_lt. destruct isUpdate, items as [|x items], (_ <? 8)%nat;
      naive_solver.
  - destruct (password_checks_object data isUpdate props c5 c6 E H5 H6)
      as (x & Hx & -> & ->).
    split.
    + intros H. exists x. destruct isUpdate, (num_lt x _), (num_lt _ x); naive_solver.
    + intros (x' & Hx' & H8 & H0). rewrite Hx in Hx'. simplify_eq.
      rewrite H8. destruct isUpdate; [|by left]. right. by rewrite H0.
Qed.

(** For a password that is missing or a string, the message is there as the
    specification has it. *)
Lemma password_message_string_or_missing data isUpdate errs :
  missing (prop data "password") ∨ (∃ s, prop data "password" = JStr s) →
  validateUser data isUpdate = Ret errs →
  password_message ∈ errs ↔
    if isUpdate
    then ∃ s, prop data "password" = JStr s ∧ s ≠ ""
              ∧ (String.length s < 8)%nat
    else missing (prop data "password")
         ∨ ∃ s, prop data "password" = JStr s ∧ (String.length s < 8)%nat.
Proof.
  intros Hpw Hv. rewrite (password_message_by_kind _ _ _ Hv).
  destruct Hpw as [[E|E]|[s E]]; rewrite E; cbn [password_refused]; unfold missing.
  - destruct isUpdate; naive_solver.
  - destruct isUpdate; naive_solver.
  - destruct isUpdate; naive_solver.
Qed.

(** C7, as amended.  When [validateUser] returns, its list holds the
    password message exactly for the passwords [password_refused] names: on
    create the falsy ones and those of a length below 8, on update the truthy
    ones of a length above 0 and below 8, the length being that of a string,
    of an array, or the number an object's [length] converts to.  For a
    password that is missing or a string this is what the specification
    says; and an update with no password, or with the empty string, gets no
    password message. *)
Theorem password_message_exactly data isUpdate errs :
  validateUser data isUpdate = Ret errs →
  (password_message ∈ errs ↔ password_refused isUpdate (prop data "password"))
  ∧ (missing (prop data "password") ∨ (∃ s, prop data "password" = JStr s) →
     (password_message ∈ errs ↔
        if isUpdate
        then ∃ s, prop data "password" = JStr s ∧ s ≠ ""
                  ∧ (String.length s < 8)%nat
        else missing (prop data "password")
             ∨ ∃ s, prop data "password" = JStr s ∧ (String.length s < 8)%nat))
  ∧ (isUpdate = true →
     missing (prop data "password") ∨ prop data "password" = JStr "" →
     password_message ∉ errs).
Proof.
  intros Hv. split_and!.
  - by apply password_message_by_kind.
  - intros Hpw. by apply password_message_string_or_missing.
  - intros -> Hpw. rewrite (password_message_by_kind _ _ _ Hv).
    destruct Hpw as [[E|E]|E]; rewrite E; cbn [password_refused]; naive_solver.
Qed.

(** C7, the counterexample: on update an array of three elements gets the
    password message although no password string is supplied, and on create
    [false] gets it although it is neither missing nor a string shorter than
    8 characters. *)
Lemma password_message_without_string :
  (validateUser (with_field "password" (JArr [JNum 1; JNum 2; JNum 3]) alice) true
   = Ret [password_message]
   ∧ ¬ ∃ s, prop (with_field "password" (JArr [JNum 1; JNum 2; JNum 3]) alice)
              "password" = JStr s
            ∧ s ≠ "" ∧ (String.length s < 8)%nat)
  ∧ (validateUser (with_field "password" (JBool false) alice) false
     = Ret [password_message]
     ∧ ¬ (missing (prop (with_field "password" (JBool false) alice) "password")
          ∨ ∃ s, prop (with_field "password" (JBool false) alice) "password" = JStr s
                 ∧ (String.length s < 8)%nat)).
Proof.
  split_and!; [by vm_compute| |by vm_compute|].
  - by intros (s & [=] & _).
  - by intros [[[=]|[=]]|(s & [=] & _)].
Qed.

Lemma bad_full_name_string data s :
  prop data "full_name" = JStr s →
  bad_full_name data =
  Ret ((String.length (trim s) <? 2)%nat || (50 <? String.length (trim s))%nat).
Proof.
  intros E. unfold bad_full_name. rewrite E.
  destruct s as [|c s]; [done|].
  cbn -[trim Nat.ltb]. by destruct (String.length _ <? 2)%nat.
Qed.

(** C8, as amended.  For a [full_name] string, the list [validateUser]
    returns holds the full-name message exactly when the length of the
    trimmed string lies outside [2,50]; so it does for every string shorter
    than 2. *)
Theorem full_name_message_trimmed data isUpdate errs s :
  prop data "full_name" = JStr s →
  validateUser data isUpdate = Ret errs →
  (full_name_message ∈ errs ↔
     (String.length (trim s) < 2 ∨ 50 < String.length (trim s))%nat)
  ∧ ((String.length s < 2)%nat → full_name_message ∈ errs).
Proof.
  intros E Hv.
  apply validateUser_Ret in Hv as (c1 & c2 & c3 & c4 & c5 & c6 & H1 & _ & _ & _ & _ & _ & ->).
  rewrite (bad_full_name_string _ _ E) in H1. simplify_eq.
  rewrite full_name_message_in, orb_true_iff, !Nat.ltb_lt.
  split; [done|]. intros Hs. left. pose proof (trim_length s). lia.
Qed.

(** C8, the counterexample: a [full_name] of 51 characters passes, because
    its 49 trailing blanks are trimmed before the length is taken. *)
Lemma full_name_length_51_accepted :
  String.length padded_name = 51%nat
  ∧ validateUser (with_field "full_name" (JStr padded_name) alice) false = Ret [].
Proof. split; [done|by vm_compute]. Qed.

(** Induction on a value through the arrays it is made of. *)
Lemma JsValue_arrays_ind (P : JsValue → Prop) :
  (∀ v, (∀ items, v = JArr items → Forall P items) → P v) → ∀ v, P v.
Proof.
  intros H. fix IH 1. intros v. apply H. destruct v as [| | | | |l|]; try done.
  intros items [= <-]. revert l. fix IHl 1.
  intros [|x l]; constructor; [apply IH|apply IHl].
Qed.

Lemma ToString_array_cons x y l :
  ToString (JArr (x :: y :: l))
  = do a <- match x with JUndefined | JNull => Ret "" | _ => ToString x end ;;
    do b <- ToString (JArr (y :: l)) ;;
    Ret (a +:+ "," +:+ b).
Proof. reflexivity. Qed.

(** ToString raises on the values that are not convertible, and only on
    them. *)
Lemma ToString_outcome v :
  if convertible v then ∃ s, ToString v = Ret s else ToString v = Throw TypeError.
Proof.
  induction v as [v IH] using JsValue_arrays_ind.
  destruct v as [| |b|n|s|items|props]; try by eexists.
  2: { cbn. by destruct (own props "toString"); [|eexists]. }
  specialize (IH items eq_refl).
  induction IH as [|x l Hx _ IHl]; [by eexists|].
  assert (if convertible x
          then ∃ s, match x with JUndefined | JNull => Ret "" | _ => ToString x end
                    = Ret s
          else match x with JUndefined | JNull => Ret "" | _ => ToString x end
               = Throw TypeError) as He.
  { destruct x; try done; by eexists. }
  cbn [convertible forallb] in *.
  destruct l as [|y l]; [by rewrite andb_true_r|].
  rewrite ToString_array_cons.
  destruct (convertible x); [|by rewrite He].
  destruct He as [a ->]. cbn [bind andb].
  destruct (forallb convertible (y :: l)); [|by rewrite IHl].
  destruct IHl as [b ->]. by eexists.
Qed.

Lemma test_outcome re v :
  if convertible v then ∃ b, test re v = Ret b else test re v = Throw TypeError.
Proof.
  unfold test. pose proof (ToString_outcome v) as H.
  destruct (convertible v); [destruct H as [s ->]|rewrite H]; [by eexists|done].
Qed.

Lemma ToNumber_outcome v :
  if convertible v then ∃ n, ToNumber v = Ret n else ToNumber v = Throw TypeError.
Proof.
  pose proof (ToString_outcome v) as H.
  destruct v as [| |b|n|s|items|props]; try by eexists.
  all: unfold ToNumber; destruct (convertible _);
    [destruct H as [s ->]|rewrite H]; [by eexists|done].
Qed.

Lemma falsy_convertible v : truthy v = false → convertible v = true.
Proof. by destruct v. Qed.

Lemma bad_full_name_returns data :
  truthy (prop data "full_name") = false ∨ (∃ s, prop data "full_name" = JStr s) →
  ∃ c, bad_full_name data = Ret c.
Proof.
  intros [E|[s E]].
  - unfold bad_full_name. rewrite E. by eexists.
  - rewrite (bad_full_name_string _ _ E). by eexists.
Qed.

(** A truthy [full_name] that is not a string has no [trim] to call. *)
Lemma bad_full_name_raises data :
  truthy (prop data "full_name") = true →
  (∀ s, prop data "full_name" ≠ JStr s) →
  bad_full_name data = Throw TypeError.
Proof.
  intros Ht Hs. unfold bad_full_name. rewrite Ht.
  by destruct (prop data "full_name") as [| |[]|n|s|l|o]; try done;
    exfalso; eapply Hs.
Qed.

Lemma bad_email_outcome data :
  if convertible (prop data "email") then ∃ c, bad_email data = Ret c
  else bad_email data = Throw TypeError.
Proof.
  unfold bad_email. pose proof (test_outcome email_re (prop data "email")) as H.
  pose proof (falsy_convertible (prop data "email")) as Hf.
  destruct (convertible _), (truthy _); try (by eexists); try (by discriminate Hf).
  - destruct H as [b ->]. by eexists.
  - unfold or_else. cbn [bind negb]. by rewrite H.
Qed.

Lemma bad_phone_outcome data :
  if convertible (prop data "phone") then ∃ c, bad_phone data = Ret c
  else bad_phone data = Throw TypeError.
Proof.
  unfold bad_phone. pose proof (test_outcome phone_re (prop data "phone")) as H.
  pose proof (falsy_convertible (prop data "phone")) as Hf.
  destruct (convertible _), (truthy _); try (by eexists); try (by discriminate Hf).
  - destruct H as [b ->]. by eexists.
  - unfold or_else. cbn [bind negb]. by rewrite H.
Qed.

Lemma bad_role_returns data : ∃ c, bad_role data = Ret c.
Proof. unfold bad_role. destruct (truthy _); by eexists. Qed.

(** The password checks raise only on an object whose [length] does not
    convert, on create in the first check and on update in the second. *)
Lemma bad_password_outcome data isUpdate :
  if match prop data "password" with
     | JObj props => convertible (prop props "length")
     | _ => true
     end
  then ∃ c5 c6, bad_password_create data isUpdate = Ret c5
                ∧ bad_password_update data isUpdate = Ret c6
  else bad_password_create data isUpdate = Throw TypeError
       ∨ ∃ c5, bad_password_create data isUpdate = Ret c5
               ∧ bad_password_update data isUpdate = Throw TypeError.
Proof.
  destruct (prop data "password") as [| |b|n|s|items|props] eqn:E.
  - destruct (password_checks_missing data isUpdate) as [-> ->]; [|by eexists _, _].
    left. by rewrite E.
  - destruct (password_checks_missing data isUpdate) as [-> ->]; [|by eexists _, _].
    right. by rewrite E.
  - destruct (password_checks_no_length data isUpdate) as [-> ->]; [|by eexists _, _].
    left. eauto.
  - destruct (password_checks_no_length data isUpdate) as [-> ->]; [|by eexists _, _].
    right. eauto.
  - destruct (password_checks_string data isUpdate s E) as [-> ->]. by eexists _, _.
  - destruct (password_checks_array data isUpdate items E) as [-> ->]. by eexists _, _.
  - pose proof (ToNumber_outcome (prop props "length")) as H.
    unfold bad_password_create, bad_password_update. rewrite E.
    cbn [get_length]. unfold and_then, or_else, lt_num, gt_num.
    cbn [bind truthy negb].
    destruct (convertible _).
    + destruct H as [x ->]. cbn [bind].
      destruct isUpdate; cbn [bind negb]; [|by eexists _, _].
      destruct (num_lt (Finite 0 0) x); by eexists _, _.
    + rewrite H. destruct isUpdate; cbn [bind negb]; [right; by eexists|by left].
Qed.

(** C3, as amended.  [validateUser] returns a list, whatever [role] and
    [isUpdate] are, for every record whose [full_name] is falsy or a string,
    whose [email] and [phone] hold no object with a [toString] property of
    its own, and whose [password], when it is an object, has a [length] that
    holds none either; for every other record it raises TypeError. *)
Theorem validateUser_returns data isUpdate :
  (checkable data = true → ∃ errs, validateUser data isUpdate = Ret errs)
  ∧ (checkable data = false → validateUser data isUpdate = Throw TypeError).
Proof.
  rewrite validateUser_checks. unfold checkable.
  pose proof (bad_email_outcome data) as H2.
  pose proof (bad_phone_outcome data) as H3.
  destruct (bad_role_returns data) as [c4 H4].
  pose proof (bad_password_outcome data isUpdate) as H5.
  assert ((negb (truthy (prop data "full_name"))
           || match prop data "full_name" with JStr _ => true | _ => false end) = true
          ∧ (∃ c, bad_full_name data = Ret c)
          ∨ (negb (truthy (prop data "full_name"))
             || match prop data "full_name" with JStr _ => true | _ => false end) = false
            ∧ bad_full_name data = Throw TypeError) as [[-> [c1 ->]]|[-> ->]].
  { destruct (truthy (prop data "full_name")) eqn:Ht; cbn [negb orb].
    - destruct (prop data "full_name") as [| | | |s| |] eqn:E;
        try (right; split; [done|apply bad_full_name_raises; by rewrite ?E]).
      left. split; [done|]. apply bad_full_name_returns. right. rewrite E. eauto.
    - left. split; [done|]. apply bad_full_name_returns. by left. }
  2: { by split. }
  cbn [bind andb].
  destruct (convertible (prop data "email")); [destruct H2 as [c2 ->]|rewrite H2];
    [|by split].
  destruct (convertible (prop data "phone")); [destruct H3 as [c3 ->]|rewrite H3];
    [|by split].
  rewrite H4. cbn [bind andb].
  destruct (match prop data "password" with
            | JObj props => convertible (prop props "length")
            | _ => true
            end).
  - destruct H5 as (c5 & c6 & -> & ->). split; [by eexists|done].
  - split; [done|]. intros _. by destruct H5 as [->|(c5 & -> & ->)].
Qed.

(** A truthy [full_name] that is not a string makes [validateUser] raise. *)
Lemma validateUser_raises data isUpdate :
  truthy (prop data "full_name") = true →
  (∀ s, prop data "full_name" ≠ JStr s) →
  validateUser data isUpdate = Throw TypeError.
Proof.
  intros Ht Hs. rewrite validateUser_checks.
  by rewrite bad_full_name_raises.
Qed.

(** C3, the counterexample: a number as [full_name] makes [validateUser]
    raise instead of returning a list, and so does an object with a
    [toString] property as [email]. *)
Lemma validateUser_number_name_raises :
  validateUser (with_field "full_name" (JNum 42) alice) false = Throw TypeError
  ∧ (¬ ∃ errs, validateUser (with_field "full_name" (JNum 42) alice) false = Ret errs)
  ∧ validateUser (with_field "email" (JObj [("toString", JNull)]) alice) true
    = Throw TypeError.
Proof. split_and!; [done| |done]. by intros [errs ?]. Qed.

End validator_claims.

(* ===================================================================== *)
(** ** The table *)
(* ===================================================================== *)

Section table.

Implicit Types (t : gmap Z UserRow) (db : Db) (r : UserRow).

Lemma email_taken_true t e except :
  email_taken t e except = true ↔
  ∃ k r, t !! k = Some r ∧ email r = e ∧ Some k ≠ except.
Proof.
  unfold email_taken. rewrite existsb_exists. split.
  - intros ([k r] & Hin & H). apply list_elem_of_In, elem_of_map_to_list in Hin.
    apply andb_true_iff in H as [He Hk]. cbn in *.
    apply String.eqb_eq in He. apply negb_true_iff, bool_decide_eq_false in Hk.
    eauto.
  - intros (k & r & Hl & He & Hk). exists (k, r). split.
    + by apply list_elem_of_In, elem_of_map_to_list.
    + cbn. apply andb_true_iff. split; [by apply String.eqb_eq|].
      by apply negb_true_iff, bool_decide_eq_false.
Qed.

Lemma email_taken_false t e except :
  email_taken t e except = false ↔
  ∀ k r, t !! k = Some r → email r = e → Some k = except.
Proof.
  rewrite <- not_true_iff_false, email_taken_true. split.
  - intros H k r Hl He. destruct (decide (Some k = except)); [done|].
    destruct H; eauto.
  - intros H (k & r & Hl & He & Hk). eauto.
Qed.

Lemma max_rowid_ge t k r : t !! k = Some r → k ≤ max_rowid t.
Proof.
  intros Hl. apply elem_of_map_to_list in Hl. unfold max_rowid.
  induction (map_to_list t) as [|[k' r'] l IH]; [by apply elem_of_nil in Hl|].
  apply elem_of_cons in Hl as [Hl|Hl]; cbn.
  - simplify_eq. lia.
  - specialize (IH Hl). lia.
Qed.

Lemma next_rowid_fresh t seq : t !! (Z.max (max_rowid t) seq + 1) = None.
Proof.
  destruct (t !! _) as [r|] eqn:E; [|done].
  apply max_rowid_ge in E. lia.
Qed.

Lemma unique_failed_message :
  includes (message unique_failed) "UNIQUE constraint failed" = true.
Proof. done. Qed.

Lemma run_insert_ok r db id db' :
  run_insert r db = (inr id, db') →
  users db !! id = None
  ∧ users db' = <[id := r]> (users db)
  ∧ email_taken (users db) (email r) None = false.
Proof.
  unfold run_insert. destruct (email_taken _ _ _) eqn:E; [done|].
  intros [= <- <-]. cbn. split_and!; [apply next_rowid_fresh|done..].
Qed.


Lemma run_insert_free r db :
  email_taken (users db) (email r) None = false →
  ∃ id db', run_insert r db = (inr id, db').
Proof. unfold run_insert. intros ->. by eexists _, _. Qed.

End table.

(* ===================================================================== *)
(** ** The handlers *)
(* ===================================================================== *)

Section handlers.

Implicit Types (req : list (string * JsValue)) (db : Db) (errs : list string).

Lemma bind_params_Ret req p :
  bind_params req = Ret p →
  ∃ fn em ph,
    prop req "full_name" = JStr fn ∧ prop req "email" = JStr em
    ∧ prop req "phone" = JStr ph
    ∧ p = {| full_name := trim fn; email := toLowerCase (trim em);
             phone := trim ph; role := prop req "role";
             password := prop req "password" |}.
Proof.
  unfold bind_params.
  destruct (prop req "full_name"), (prop req "email"), (prop req "phone");
    try done.
  cbn. intros [= <-]. by eexists _, _, _.
Qed.

Lemma bind_params_strings req fn em ph :
  prop req "full_name" = JStr fn → prop req "email" = JStr em →
  prop req "phone" = JStr ph →
  bind_params req =
  Ret {| full_name := trim fn; email := toLowerCase (trim em);
         phone := trim ph; role := prop req "role";
         password := prop req "password" |}.
Proof. unfold bind_params. by intros -> -> ->. Qed.

Lemma length_pos_nil {A} (l : list A) : (0 <? length l)%nat = false ↔ l = [].
Proof. by destruct l. Qed.

Lemma length_pos_cons {A} (l : list A) : l ≠ [] → (0 <? length l)%nat = true.
Proof. by destruct l. Qed.

(** C4.  When the body fails validation, that is when [validateUser] returns
    a non-empty list, both handlers answer with status 400 and the body
    [{error: ...}] holding the messages of the list in their order, each two
    separated by a comma and a blank, and the database is the one they were
    given. *)
Theorem validation_failure_400 req db :
  (∀ errs, validateUser req false = Ret errs → errs ≠ [] →
     post_users req db
     = (Ret {| status := 400;
               body := JObj [("error", JStr (String.concat ", " errs))] |}, db))
  ∧ (∀ id errs, validateUser req true = Ret errs → errs ≠ [] →
     put_users id req db
     = (Ret {| status := 400;
               body := JObj [("error", JStr (String.concat ", " errs))] |}, db)).
Proof.
  split; [intros errs Hv Hne|intros id errs Hv Hne];
    unfold post_users, put_users; rewrite Hv, (length_pos_cons _ Hne);
    by rewrite join_concat.
Qed.

#[local] Instance id_desc_total : Total id_desc.
Proof. intros a b. unfold id_desc. lia. Qed.

#[local] Instance id_desc_trans : Transitive id_desc.
Proof. intros a b c. unfold id_desc. lia. Qed.




Lemma valid_full_name_string req isUpdate :
  validateUser req isUpdate = Ret [] → ∃ fn, prop req "full_name" = JStr fn.
Proof.
  intros (c1 & c2 & c3 & c4 & c5 & c6 & H1 & _ & _ & _ & _ & _ & E)%validateUser_Ret.
  symmetry in E. apply errors_of_nil in E as (-> & _).
  unfold bad_full_name in H1.
  destruct (prop req "full_name") as [| |[]|n|s|l|o]; try done.
  - cbn in H1. by destruct (negb (n =? 0)).
  - by eexists.
Qed.

Lemma valid_password_given req errs :
  validateUser req true = Ret errs →
  ∃ w, password_given req = Ret w
       ∧ (truthy (prop req "password") = false → w = false)
       ∧ (∀ p, prop req "password" = JStr p → p ≠ "" → w = true).
Proof.
  intros (c1 & c2 & c3 & c4 & c5 & c6 & _ & _ & _ & _ & _ & H6 & _)%validateUser_Ret.
  unfold bad_password_update in H6. unfold password_given.
  destruct (prop req "password") as [| |b|n|s|l|o] eqn:E;
    unfold and_then in *; cbn [bind truthy get_length] in *;
    rewrite ?gt_num_int by reflexivity.
  - by exists false.
  - by exists false.
  - exists false. destruct b; cbn; split_and!; done || (intros; simplify_eq).
  - exists false.
    destruct (negb (n =? 0)); cbn; split_and!; done || (intros; simplify_eq).
  - destruct s as [|c s]; cbn; [exists false|exists true];
      split_and!; done || (intros; simplify_eq).
  - eexists. split_and!; done.
  - destruct (gt_num (prop o "length") 0) as [a|] eqn:G; try done.
    by exists a.
Qed.

Lemma put_users_valid id req db old w params :
  validateUser req true = Ret [] →
  users db !! id = Some old →
  password_given req = Ret w →
  bind_params req = Ret params →
  put_users id req db =
  match run_update params w id db with
  | (Some err, db') =>
      if includes (message err) "UNIQUE constraint failed"
      then (Ret (json 400 (error_body "Email already exists")), db')
      else (Ret (json 500 (error_body "Failed to update user")), db')
  | (None, db') =>
      (Ret (json 200 (message_body "User updated successfully")), db')
  end.
Proof.
  intros Hv Hid Hw Hp. unfold put_users. rewrite Hv, Hid. cbn [length Nat.ltb Nat.leb].
  by rewrite Hw, Hp.
Qed.

(** C1.  For an id some row has, a valid update whose email no other row
    holds answers 200 and rewrites that row alone: [full_name], [email],
    [phone] and [role] are overwritten; the stored password stays when the
    request has no password or the empty string, and becomes the request's
    password when that is a non-empty string. *)
Theorem update_keeps_or_replaces_password db id old req em ph :
  users db !! id = Some old →
  validateUser req true = Ret [] →
  prop req "email" = JStr em →
  prop req "phone" = JStr ph →
  email_taken (users db) (toLowerCase (trim em)) (Some id) = false →
  ∃ fn new,
    prop req "full_name" = JStr fn
    ∧ put_users id req db
      = (Ret (json 200 (message_body "User updated successfully")),
         {| users := <[id := new]> (users db); users_seq := users_seq db |})
    ∧ full_name new = trim fn
    ∧ email new = toLowerCase (trim em)
    ∧ phone new = trim ph
    ∧ role new = prop req "role"
    ∧ (missing (prop req "password") ∨ prop req "password" = JStr "" →
       password new = password old)
    ∧ (∀ p, prop req "password" = JStr p → p ≠ "" → password new = JStr p).
Proof.
  intros Hid Hv He Hp Hfree.
  destruct (valid_full_name_string _ _ Hv) as [fn Hn].
  destruct (valid_password_given _ _ Hv) as (w & Hw & Hfalsy & Hstr).
  pose proof (bind_params_strings _ _ _ _ Hn He Hp) as Hb.
  rewrite (put_users_valid _ _ _ _ _ _ Hv Hid Hw Hb).
  unfold run_update. rewrite Hid. cbn [email]. rewrite Hfree.
  eexists fn, _. split_and!; [done|done|done..| |]; cbn.
  - intros Hm. rewrite Hfalsy; [done|]. by destruct Hm as [[-> | ->] | ->].
  - intros p E Hne. rewrite (Hstr p E Hne). done.
Qed.


Lemma post_users_201 req db resp db' :
  post_users req db = (Ret resp, db') →
  status resp = 201 →
  ∃ id params,
    validateUser req false = Ret [] ∧ bind_params req = Ret params
    ∧ run_insert params db = (inr id, db')
    ∧ resp = json 201 (created_body id req).
Proof.
  unfold post_users.
  destruct (validateUser req false) as [errs|] eqn:Hv; try done.
  destruct errs as [|e errs]; cbn [length Nat.ltb Nat.leb].
  2: { intros [= <- <-]. done. }
  destruct (bind_params req) as [params|] eqn:Hp; try done.
  destruct (run_insert params db) as [[err|id] db1] eqn:Hr.
  - destruct (includes _ _); intros [= <- <-]; done.
  - intros [= <- <-] _. by eexists _, _.
Qed.

(** C9.  A 201 answer carries [full_name], [email] and [phone] as the
    request had them, while the new row holds the trimmed name and phone and
    the trimmed, lowercased email; and some valid request is answered with
    an object that differs from the one the list then shows for it. *)
Theorem created_response_echoes_request :
  (∀ req db resp db',
     post_users req db = (Ret resp, db') →
     status resp = 201 →
     ∃ id fn em ph,
       prop req "full_name" = JStr fn ∧ prop req "email" = JStr em
       ∧ prop req "phone" = JStr ph
       ∧ body resp = JObj [("id", JNum id); ("full_name", JStr fn);
                           ("email", JStr em); ("phone", JStr ph);
                           ("role", prop req "role")]
       ∧ users db !! id = None
       ∧ users db' =
         <[id := {| full_name := trim fn; email := toLowerCase (trim em);
                    phone := trim ph; role := prop req "role";
                    password := prop req "password" |}]> (users db))
  ∧ (∃ req db resp db' shown,
       post_users req db = (Ret resp, db') ∧ status resp = 201
       ∧ get_users db' = (Ret (json 200 (JArr [shown])), db')
       ∧ body resp ≠ shown).
Proof.
  split.
  - intros req db resp db' Hpost Hst.
    destruct (post_users_201 _ _ _ _ Hpost Hst) as (id & params & _ & Hp & Hr & ->).
    destruct (bind_params_Ret _ _ Hp) as (fn & em & ph & Hn & He & Hph & ->).
    destruct (run_insert_ok _ _ _ _ Hr) as (Hfresh & Hdb & _).
    exists id, fn, em, ph. cbn. unfold created_body. rewrite Hn, He, Hph.
    done.
  - exists alice, empty_db. eexists _, _, _. split_and!; [by vm_compute..|].
    by vm_compute.
Qed.



Lemma lookup_after_handle r db k row :
  users (handle r db).2 !! k = Some row →
  (∃ row0, users db !! k = Some row0 ∧ email row0 = email row)
  ∨ (∃ e, request_email r = Some e ∧ email row = toLowerCase (trim e)).
Proof.
  destruct r as [|req|id req|id]; cbn [handle request_email].
  - cbn. eauto.
  - unfold post_users.
    destruct (validateUser req false) as [[|e errs]|]; [|cbn; eauto..].
    cbn [length Nat.ltb Nat.leb].
    destruct (bind_params req) as [p|] eqn:Hp; [|cbn; eauto..].
    destruct (bind_params_Ret _ _ Hp) as (fn & em & ph & _ & He & _ & ->).
    unfold run_insert. cbn [email].
    destruct (email_taken _ _ _); [cbn; eauto|]. cbn [snd users].
    rewrite lookup_insert. case_decide; [|eauto].
    intros [= <-]. right. exists em. by rewrite He.
  - unfold put_users.
    destruct (validateUser req true) as [[|e errs]|]; [|cbn; eauto..].
    cbn [length Nat.ltb Nat.leb].
    destruct (users db !! id) as [old|] eqn:Hid; [|cbn; eauto].
    destruct (password_given req) as [w|]; [|cbn; eauto..].
    destruct (bind_params req) as [p|] eqn:Hp; [|cbn; eauto..].
    cbn [bind].
    destruct (bind_params_Ret _ _ Hp) as (fn & em & ph & _ & He & _ & ->).
    unfold run_update. rewrite Hid. cbn [email].
    destruct (email_taken _ _ _); [cbn; eauto|]. cbn [snd users].
    rewrite lookup_insert. case_decide; [|eauto].
    intros [= <-]. right. exists em. by rewrite He.
  - unfold delete_users, run_delete.
    destruct (users db !! id) as [old|] eqn:Hid; cbn [snd users]; eauto.
    rewrite lookup_delete. case_decide; [done|eauto].
Qed.

(** C10.  Every request keeps the stored emails free of uppercase letters
    and of blanks at either end: a row of the table after the request either
    has the email it had before, or has [toLowerCase] of [trim] of the email
    string the request carried. *)
Theorem emails_stay_normalised r db :
  emails_normalised db →
  emails_normalised (handle r db).2
  ∧ (∀ k row, users (handle r db).2 !! k = Some row →
       (∃ row0, users db !! k = Some row0 ∧ email row0 = email row)
       ∨ (∃ e, request_email r = Some e ∧ email row = toLowerCase (trim e))).
Proof.
  intros Hinv. split; [|apply lookup_after_handle].
  intros k row Hrow.
  destruct (lookup_after_handle _ _ _ _ Hrow) as [(row0 & H0 & <-)|(e & _ & ->)].
  - by eapply Hinv.
  - apply trim_toLowerCase_normalised.
Qed.

End handlers.

Section invariants.

Implicit Types (req : list (string * JsValue)) (db : Db).

(** Whatever else an update does, it never touches the password of its row
    when the request's password is falsy, nor any other row's. *)
Lemma put_users_password_frame id req db k row :
  users db !! k = Some row →
  k ≠ id ∨ truthy (prop req "password") = false →
  ∃ row', users (put_users id req db).2 !! k = Some row'
          ∧ password row' = password row
          ∧ (k ≠ id → row' = row).
Proof.
  intros Hk Hcase. unfold put_users.
  destruct (validateUser req true) as [[|e errs]|]; [|cbn; eauto..].
  cbn [length Nat.ltb Nat.leb].
  destruct (users db !! id) as [old|] eqn:Hid; [|cbn; eauto].
  destruct (password_given req) as [w|] eqn:Hw; [|cbn; eauto..].
  destruct (bind_params req) as [p|] eqn:Hp; [|cbn; eauto..].
  cbn [bind]. unfold run_update. rewrite Hid.
  destruct (email_taken _ _ _); [cbn; eauto|]. cbn [snd users].
  rewrite lookup_insert. case_decide as Hd; [|eauto].
  subst k. destruct Hcase as [?|Hf]; [done|].
  rewrite Hid in Hk. simplify_eq.
  unfold password_given in Hw. rewrite Hf in Hw. cbn in Hw. simplify_eq.
  eexists. by split_and!.
Qed.

(** What a request can do to the table: nothing, write one row whose email
    no other row holds, or remove one row. *)
Lemma handle_table r db :
  users (handle r db).2 = users db
  ∨ (∃ id row, users (handle r db).2 = <[id := row]> (users db)
               ∧ email_taken (users db) (email row) (Some id) = false)
  ∨ (∃ id, users (handle r db).2 = delete id (users db)).
Proof.
  destruct r as [|req|id req|id]; cbn [handle].
  - by left.
  - unfold post_users.
    destruct (validateUser req false) as [[|e errs]|]; [|by left..].
    cbn [length Nat.ltb Nat.leb].
    destruct (bind_params req) as [p|]; [|by left..].
    unfold run_insert. destruct (email_taken _ _ None) eqn:E; [by left|].
    right. left. eexists _, p. split; [done|].
    apply email_taken_false. intros k r Hk He.
    by pose proof (proj1 (email_taken_false _ _ _) E k r Hk He).
  - unfold put_users.
    destruct (validateUser req true) as [[|e errs]|]; [|by left..].
    cbn [length Nat.ltb Nat.leb].
    destruct (users db !! id) as [old|] eqn:Hid; [|by left].
    destruct (password_given req) as [w|]; [|by left..].
    destruct (bind_params req) as [p|]; [|by left..].
    cbn [bind]. unfold run_update. rewrite Hid.
    destruct (email_taken _ _ (Some id)) eqn:E; [by left|].
    right. left. by eexists id, _.
  - unfold delete_users, run_delete.
    destruct (users db !! id); [|by left]. right. right. by exists id.
Qed.

Lemma handle_unique r db : emails_unique db → emails_unique (handle r db).2.
Proof.
  intros Hu.
  destruct (handle_table r db) as [E|[(id & row & E & Hfree)|[id E]]];
    unfold emails_unique; rewrite E.
  - done.
  - rewrite email_taken_false in Hfree.
    intros k1 k2 r1 r2. rewrite !lookup_insert.
    repeat case_decide; intros; simplify_eq; try done.
    + symmetry. by eapply (inj Some), Hfree.
    + by eapply (inj Some), Hfree.
    + by eapply Hu.
  - intros k1 k2 r1 r2. rewrite !lookup_delete.
    repeat case_decide; try done. apply Hu.
Qed.

Lemma handle_normalised r db :
  emails_normalised db → emails_normalised (handle r db).2.
Proof.
  intros Hn k row [(row0 & H0 & <-)|(e & _ & ->)]%lookup_after_handle.
  - by eapply Hn.
  - apply trim_toLowerCase_normalised.
Qed.

(** From the empty table, no sequence of requests stores an email twice, or
    an email with an uppercase letter or a blank at an end. *)
Lemma run_invariants rs db :
  emails_unique db ∧ emails_normalised db →
  emails_unique (run rs db) ∧ emails_normalised (run rs db).
Proof.
  revert db. induction rs as [|r rs IH]; intros db [Hu Hn]; [done|].
  cbn [run]. apply IH. split; [by apply handle_unique|by apply handle_normalised].
Qed.

Lemma reachable_invariants rs :
  emails_unique (run rs empty_db) ∧ emails_normalised (run rs empty_db).
Proof.
  apply run_invariants. split.
  - intros k1 k2 r1 r2 H. cbn [empty_db users] in H. by rewrite lookup_empty in H.
  - intros k r H. cbn [empty_db users] in H. by rewrite lookup_empty in H.
Qed.

(** The scenario of the specification, from an empty table. *)
Example end_to_end :
  post_users alice empty_db = (Ret (json 201 (created_body 1 alice)), alice_db)
  ∧ (get_users alice_db).1 = Ret (json 200 (JArr [row_object (1, alice_row)]))
  ∧ ∃ db2,
      put_users 1 alice_as_guest alice_db
      = (Ret (json 200 (message_body "User updated successfully")), db2)
      ∧ (∃ row, users db2 !! 1 = Some row ∧ role row = JStr "Guest"
                ∧ password row = JStr "secret123")
      ∧ ∃ db3,
          delete_users 1 db2
          = (Ret (json 200 (message_body "User deleted successfully")), db3)
          ∧ delete_users 1 db3
            = (Ret (json 404 (error_body "User not found")), db3).
Proof.
  split_and!; [by vm_compute..|].
  eexists. split; [by vm_compute|]. split; [by eexists|].
  eexists. split; by vm_compute.
Qed.

(** The answers of that walk and of the contact list, written out. *)
Example answers_written_out :
  (post_users alice empty_db).1
  = Ret {| status := 201;
           body := JObj [("id", JNum 1); ("full_name", JStr " Alice Smith ");
                         ("email", JStr "Alice@Example.COM");
                         ("phone", JStr "1234567890"); ("role", JStr "Admin")] |}
  ∧ (get_users alice_db).1
    = Ret {| status := 200;
             body := JArr [JObj [("id", JNum 1); ("full_name", JStr "Alice Smith");
                                 ("email", JStr "alice@example.com");
                                 ("phone", JStr "1234567890");
                                 ("role", JStr "Admin")]] |}
  ∧ (delete_users 1 alice_db).1
    = Ret {| status := 200;
             body := JObj [("message", JStr "User deleted successfully")] |}
  ∧ (delete_users 2 alice_db).1
    = Ret {| status := 404; body := JObj [("error", JStr "User not found")] |}
  ∧ (Contacts.post_contacts "2024-05-01 10:00:00" hello Contacts.empty_table).1
    = Ret {| status := 201;
             body := JObj [("id", JNum 1); ("name", JStr " Bob ");
                           ("email", JStr "Bob@Example.com");
                           ("subject", JStr "Support");
                           ("message", JStr "  Please call me back.  ")] |}
  ∧ (Contacts.get_contacts hello_table).1
    = Ret {| status := 200;
             body := JArr [JObj [("id", JNum 1); ("name", JStr "Bob");
                                 ("email", JStr "bob@example.com");
                                 ("subject", JStr "Support");
                                 ("message", JStr "Please call me back.");
                                 ("created_at", JStr "2024-05-01 10:00:00")]] |}.
Proof. by vm_compute. Qed.

End invariants.

(* ===================================================================== *)
(** ** The properties at sample requests *)
(* ===================================================================== *)

Lemma update_keeps_or_replaces_password_at_alice :
  ∃ fn new,
    prop alice_as_guest "full_name" = JStr fn
    ∧ put_users 1 alice_as_guest alice_db
      = (Ret (json 200 (message_body "User updated successfully")),
         {| users := <[1 := new]> (users alice_db); users_seq := users_seq alice_db |})
    ∧ full_name new = trim fn
    ∧ email new = toLowerCase (trim "alice@example.com")
    ∧ phone new = trim "0987654321"
    ∧ role new = prop alice_as_guest "role"
    ∧ (missing (prop alice_as_guest "password")
       ∨ prop alice_as_guest "password" = JStr "" →
       password new = password alice_row)
    ∧ (∀ p, prop alice_as_guest "password" = JStr p → p ≠ "" →
       password new = JStr p).
Proof.
  apply (update_keeps_or_replaces_password alice_db 1 alice_row alice_as_guest
           "alice@example.com" "0987654321"); vm_compute; reflexivity.
Defined.


Lemma validateUser_returns_at_array_email :
  (∃ errs,
     validateUser (with_field "email" (JArr [JStr "a@b"; JNum (2 ^ 60)]) alice) true
     = Ret errs)
  ∧ validateUser (with_field "phone" (JArr [JObj [("toString", JNull)]]) alice) true
    = Throw TypeError.
Proof.
  split.
  - apply (proj1 (validateUser_returns
                    (with_field "email" (JArr [JStr "a@b"; JNum (2 ^ 60)]) alice)
                    true)).
    reflexivity.
  - apply (proj2 (validateUser_returns
                    (with_field "phone" (JArr [JObj [("toString", JNull)]]) alice)
                    true)).
    reflexivity.
Defined.

Lemma validation_failure_400_at_empty_record :
  post_users [] alice_db
  = (Ret {| status := 400;
            body := JObj [("error", JStr "Full Name must be between 2 and 50 characters, A valid email is required, Phone must be exactly 10 digits, Role must be Admin, User, or Guest, Password must be at least 8 characters")] |},
     alice_db)
  ∧ put_users 1 [] alice_db
    = (Ret {| status := 400;
              body := JObj [("error", JStr "Full Name must be between 2 and 50 characters, A valid email is required, Phone must be exactly 10 digits, Role must be Admin, User, or Guest")] |},
       alice_db).
Proof.
  split.
  - apply (proj1 (validation_failure_400 [] alice_db)
             [full_name_message; email_message; phone_message; role_message;
              password_message]); [reflexivity|discriminate].
  - apply (proj2 (validation_failure_400 [] alice_db) 1
             [full_name_message; email_message; phone_message; role_message]);
      [reflexivity|discriminate].
Defined.


Lemma password_message_exactly_at_short_array :
  ((password_message ∈ [password_message] ↔
      password_refused true
        (prop (with_field "password" (JArr [JNum 1; JNum 2; JNum 3]) alice)
              "password"))
   ∧ (missing (prop (with_field "password" (JArr [JNum 1; JNum 2; JNum 3]) alice)
                    "password")
      ∨ (∃ s, prop (with_field "password" (JArr [JNum 1; JNum 2; JNum 3]) alice)
                "password" = JStr s) →
      (password_message ∈ [password_message] ↔
         ∃ s, prop (with_field "password" (JArr [JNum 1; JNum 2; JNum 3]) alice)
                "password" = JStr s
              ∧ s ≠ "" ∧ (String.length s < 8)%nat))
   ∧ (true = true →
      missing (prop (with_field "password" (JArr [JNum 1; JNum 2; JNum 3]) alice)
                    "password")
      ∨ prop (with_field "password" (JArr [JNum 1; JNum 2; JNum 3]) alice)
          "password" = JStr "" →
      password_message ∉ [password_message]))
  ∧ (password_message ∈ [password_message] ↔
       password_refused false
         (prop (with_field "password" (JObj [("length", JStr " 7.5 ")]) alice)
               "password"))
  ∧ (password_message ∈ [] ↔
       password_refused true
         (prop (with_field "password" (JObj [("length", JStr "8")]) alice)
               "password")).
Proof.
  split; [|split].
  - apply (password_message_exactly
             (with_field "password" (JArr [JNum 1; JNum 2; JNum 3]) alice)
             true [password_message]).
    vm_compute. reflexivity.
  - exact (proj1 (password_message_exactly
                    (with_field "password" (JObj [("length", JStr " 7.5 ")]) alice)
                    false [password_message] eq_refl)).
  - exact (proj1 (password_message_exactly
                    (with_field "password" (JObj [("length", JStr "8")]) alice)
                    true [] eq_refl)).
Defined.

Lemma full_name_message_trimmed_at_blank_name :
  (full_name_message ∈ [full_name_message] ↔
     (String.length (trim "  A  ") < 2 ∨ 50 < String.length (trim "  A  "))%nat)
  ∧ ((String.length "  A  " < 2)%nat → full_name_message ∈ [full_name_message]).
Proof.
  apply (full_name_message_trimmed (with_field "full_name" (JStr "  A  ") alice)
           false [full_name_message] "  A  ").
  - reflexivity.
  - vm_compute. reflexivity.
Defined.

Lemma created_response_echoes_request_at_alice :
  ∃ id fn em ph,
    prop alice "full_name" = JStr fn ∧ prop alice "email" = JStr em
    ∧ prop alice "phone" = JStr ph
    ∧ body (json 201 (created_body 1 alice))
      = JObj [("id", JNum id); ("full_name", JStr fn); ("email", JStr em);
              ("phone", JStr ph); ("role", prop alice "role")]
    ∧ users empty_db !! id = None
    ∧ users alice_db =
      <[id := {| full_name := trim fn; email := toLowerCase (trim em);
                 phone := trim ph; role := prop alice "role";
                 password := prop alice "password" |}]> (users empty_db).
Proof.
  apply (proj1 created_response_echoes_request alice empty_db
           (json 201 (created_body 1 alice)) alice_db);
    vm_compute; reflexivity.
Defined.

Lemma emails_stay_normalised_at_alice :
  emails_normalised (handle (POST_users alice) empty_db).2
  ∧ (∀ k row, users (handle (POST_users alice) empty_db).2 !! k = Some row →
       (∃ row0, users empty_db !! k = Some row0 ∧ email row0 = email row)
       ∨ (∃ e, request_email (POST_users alice) = Some e
               ∧ email row = toLowerCase (trim e))).
Proof.
  apply (emails_stay_normalised (POST_users alice) empty_db).
  intros k r H. unfold empty_db in H. cbn [users] in H.
  rewrite lookup_empty in H. discriminate.
Defined.

(* ===================================================================== *)
(** ** Further properties of the user handlers *)
(* ===================================================================== *)

Section user_requests.

Implicit Types (req : list (string * JsValue)) (db : Db) (r : Request).

(** X1.  A request that is not answered 200 or 201 (a 400, a 404, a 500, or
    a handler that throws) leaves the database exactly as it was. *)
Theorem unsuccessful_request_changes_nothing r db :
  succeeded (handle r db).1 = false → (handle r db).2 = db.
Proof.
  destruct r as [|req|id req|id]; cbn [handle].
  - done.
  - unfold post_users.
    destruct (validateUser req false) as [[|e errs]|]; [|done..].
    cbn [length Nat.ltb Nat.leb].
    destruct (bind_params req) as [p|]; [|done..].
    unfold run_insert. by destruct (email_taken _ _ _).
  - unfold put_users.
    destruct (validateUser req true) as [[|e errs]|]; [|done..].
    cbn [length Nat.ltb Nat.leb].
    destruct (users db !! id) as [old|] eqn:Hid; [|done].
    destruct (password_given req) as [w|]; [|done..].
    destruct (bind_params req) as [p|]; [|done..].
    cbn [bind]. unfold run_update. rewrite Hid.
    by destruct (email_taken _ _ _).
  - unfold delete_users, run_delete. by destruct (users db !! id).
Qed.

Lemma run_insert_id row db id db' :
  run_insert row db = (inr id, db') →
  users_seq db' = id ∧ users_seq db < id
  ∧ (∀ k, is_Some (users db !! k) → k < id).
Proof.
  unfold run_insert. destruct (email_taken _ _ _); [done|].
  intros [= <- <-]. cbn. split_and!; [done|lia|].
  intros k [r Hk]. apply max_rowid_ge in Hk. lia.
Qed.

Lemma handle_seq_grows r db : users_seq db ≤ users_seq (handle r db).2.
Proof.
  destruct r as [|req|id req|id]; cbn [handle].
  - done.
  - unfold post_users.
    destruct (validateUser req false) as [[|e errs]|]; [|done..].
    cbn [length Nat.ltb Nat.leb].
    destruct (bind_params req) as [p|]; [|done..].
    unfold run_insert. destruct (email_taken _ _ _); [done|]. cbn. lia.
  - unfold put_users.
    destruct (validateUser req true) as [[|e errs]|]; [|done..].
    cbn [length Nat.ltb Nat.leb].
    destruct (users db !! id) as [old|] eqn:Hid; [|done].
    destruct (password_given req) as [w|]; [|done..].
    destruct (bind_params req) as [p|]; [|done..].
    cbn [bind]. unfold run_update. rewrite Hid.
    by destruct (email_taken _ _ _).
  - unfold delete_users, run_delete. by destruct (users db !! id).
Qed.

Lemma run_seq_grows rs db : users_seq db ≤ users_seq (run rs db).
Proof.
  revert db. induction rs as [|r rs IH]; intros db; [done|].
  cbn [run]. etrans; [apply (handle_seq_grows r)|apply IH].
Qed.

Lemma created_body_id id id' req req' :
  Ret (json 201 (created_body id req)) = Ret (json 201 (created_body id' req')) →
  id = id'.
Proof. by intros [= ->]. Qed.

(** X2.  Ids are never handed out twice: whatever requests come between two
    inserts answered 201, deletes included, the later insert gets the larger
    id. *)
Theorem created_ids_increase req db id db1 rs req' id' db2 :
  post_users req db = (Ret (json 201 (created_body id req)), db1) →
  post_users req' (run rs db1) = (Ret (json 201 (created_body id' req')), db2) →
  id < id'.
Proof.
  intros H1 H2.
  apply post_users_201 in H1 as (i1 & p1 & _ & _ & Hr1 & E1); [|done].
  apply post_users_201 in H2 as (i2 & p2 & _ & _ & Hr2 & E2); [|done].
  injection E1 as ->. injection E2 as ->.
  apply run_insert_id in Hr1 as (Hseq1 & _ & _).
  apply run_insert_id in Hr2 as (_ & Hlt & _).
  pose proof (run_seq_grows rs db1). lia.
Qed.

Lemma lowercase_fixed s :
  all_chars (λ c, negb (is_upper c)) s = true → toLowerCase s = s.
Proof.
  induction s as [|c s IH]; [done|]. cbn.
  intros [Hc Hs]%andb_true_iff. rewrite IH by done.
  unfold lower_char. by destruct (is_upper c).
Qed.

(** X3.  Starting from the empty table, no sequence of requests leaves two
    rows whose emails are equal up to letter case. *)
Theorem stored_emails_differ_beyond_case rs k1 k2 (row1 row2 : UserRow) :
  users (run rs empty_db) !! k1 = Some row1 →
  users (run rs empty_db) !! k2 = Some row2 →
  toLowerCase (email row1) = toLowerCase (email row2) →
  k1 = k2.
Proof.
  intros H1 H2 He.
  destruct (reachable_invariants rs) as [Hu Hn].
  destruct (Hn _ _ H1) as (Hl1 & _). destruct (Hn _ _ H2) as (Hl2 & _).
  rewrite !lowercase_fixed in He by done.
  by eapply Hu.
Qed.

(** X4.  An update is idempotent: sending the same PUT again gets the same
    answer and leaves the database as the first one left it. *)
Theorem put_users_idempotent id req db :
  put_users id req (put_users id req db).2 = put_users id req db.
Proof.
  unfold put_users.
  destruct (validateUser req true) as [[|e errs]|]; [|done..].
  cbn [length Nat.ltb Nat.leb].
  destruct (users db !! id) as [old|] eqn:Hid; [|by cbn [snd]; rewrite Hid].
  destruct (password_given req) as [w|]; [|by cbn [snd bind]; rewrite Hid..].
  destruct (bind_params req) as [p|]; [|by cbn [snd bind]; rewrite Hid..].
  cbn [bind]. unfold run_update. rewrite Hid.
  destruct (email_taken (users db) _ _) eqn:E; cbn [snd users users_seq].
  { rewrite unique_failed_message. cbn [snd]. by rewrite Hid, E. }
  rewrite lookup_insert_eq.
  replace (email_taken (<[id:=_]> (users db)) (email p) (Some id)) with false.
  - rewrite insert_insert_eq. by destruct w.
  - symmetry. apply email_taken_false. intros k r.
    rewrite lookup_insert. case_decide; [by intros; subst|].
    rewrite email_taken_false in E. apply E.
Qed.


(** X6.  Deleting a user just created gives back the table as it was before
    the insert; only the id counter keeps the id that was used. *)
Theorem delete_undoes_create req db id db1 :
  post_users req db = (Ret (json 201 (created_body id req)), db1) →
  delete_users id db1
  = (Ret (json 200 (message_body "User deleted successfully")),
     {| users := users db; users_seq := id |}).
Proof.
  intros H.
  apply post_users_201 in H as (i & p & _ & _ & Hr & E); [|done].
  injection E as ->.
  destruct (run_insert_ok _ _ _ _ Hr) as (Hfresh & Hdb & _).
  destruct (run_insert_id _ _ _ _ Hr) as (Hseq & _).
  unfold delete_users, run_delete. rewrite Hdb, lookup_insert_eq.
  by rewrite delete_insert_eq, (delete_id _ _ Hfresh), Hseq.
Qed.

(** X7.  A request changes at most the row it addresses: a listing changes
    none, an insert only fills an id that had no row, an update or a delete
    only touches the id in its path. *)
Theorem request_touches_one_row r db k :
  users (handle r db).2 !! k ≠ users db !! k →
  match r with
  | GET_users => False
  | POST_users _ => users db !! k = None
  | PUT_users id _ | DELETE_users id => k = id
  end.
Proof.
  destruct r as [|req|id req|id]; cbn [handle].
  - done.
  - unfold post_users.
    destruct (validateUser req false) as [[|e errs]|]; [|done..].
    cbn [length Nat.ltb Nat.leb].
    destruct (bind_params req) as [p|]; [|done..].
    unfold run_insert. destruct (email_taken _ _ _); [done|].
    cbn [snd users]. rewrite lookup_insert. case_decide; [|done].
    intros _. subst k. apply next_rowid_fresh.
  - unfold put_users.
    destruct (validateUser req true) as [[|e errs]|]; [|done..].
    cbn [length Nat.ltb Nat.leb].
    destruct (users db !! id) as [old|] eqn:Hid; [|done].
    destruct (password_given req) as [w|]; [|done..].
    destruct (bind_params req) as [p|]; [|done..].
    cbn [bind]. unfold run_update. rewrite Hid.
    destruct (email_taken _ _ _); [done|].
    cbn [snd users]. rewrite lookup_insert. by case_decide.
  - unfold delete_users, run_delete.
    destruct (users db !! id) as [old|] eqn:Hid; [|done].
    cbn [snd users]. rewrite lookup_delete. by case_decide.
Qed.

(** X21.  An update never adds or removes a row: the ids of the table are
    the same after a PUT as before it, whatever it is answered; a PUT to an
    id without a row does not create one. *)
Theorem put_users_keeps_ids id req db k :
  is_Some (users (put_users id req db).2 !! k) ↔ is_Some (users db !! k).
Proof.
  unfold put_users.
  destruct (validateUser req true) as [[|e errs]|]; [|done..].
  cbn [length Nat.ltb Nat.leb].
  destruct (users db !! id) as [old|] eqn:Hid; [|done].
  destruct (password_given req) as [w|]; [|done..].
  destruct (bind_params req) as [p|]; [|done..].
  cbn [bind]. unfold run_update. rewrite Hid.
  destruct (email_taken _ _ _); [done|].
  cbn [snd users]. rewrite lookup_insert. case_decide; [|done].
  subst k. rewrite Hid. split; eauto.
Qed.

End user_requests.

(* ===================================================================== *)
(** ** Further properties of the validator *)
(* ===================================================================== *)

Section validator_rules.

Implicit Types (data : list (string * JsValue)) (errs : list string).

Lemma star_class_in_lang p s :
  in_lang (RStar (RClass p)) s ↔ all_chars p s = true.
Proof.
  split.
  - remember (RStar (RClass p)) as r eqn:Hr. intros H.
    induction H as [| | | | | |r0 s1 s2 H1 _ _ IH2]; try done.
    simplify_eq. inversion H1 as [|? c Hc| | | | |]; subst.
    change (String c "" +:+ s2) with (String c s2). cbn.
    by rewrite Hc, IH2.
  - induction s as [|c s IH]; [constructor|].
    cbn. intros [Hc Hs]%andb_true_iff.
    apply (in_star_more _ (String c "") s); [by constructor|auto].
Qed.

Lemma plus_class_in_lang p s :
  in_lang (RPlus (RClass p)) s ↔ s ≠ "" ∧ all_chars p s = true.
Proof.
  unfold RPlus. split.
  - inversion 1 as [| |? ? s1 s2 H1 H2| | | |]; subst.
    inversion H1 as [|? c Hc| | | | |]; subst.
    apply star_class_in_lang in H2.
    change (String c "" +:+ s2) with (String c s2). cbn.
    by rewrite Hc, H2.
  - destruct s as [|c s]; [by intros [? _]|].
    cbn. intros [_ [Hc Hs]%andb_true_iff].
    apply (in_cat _ _ (String c "") s); [by constructor|].
    by apply star_class_in_lang.
Qed.

Lemma char_in_lang a s : in_lang (RChar a) s ↔ s = String a "".
Proof.
  unfold RChar. split.
  - inversion 1 as [|? c Hc| | | | |]; subst.
    by apply Ascii.eqb_eq in Hc as ->.
  - intros ->. constructor. apply Ascii.eqb_refl.
Qed.

Lemma email_re_shape e : matches email_re e = true ↔ email_form e.
Proof.
  rewrite matches_in_lang. unfold email_re, email_form.
  change (λ c, negb (is_space c || Ascii.eqb c "@")) with email_char.
  split.
  - inversion 1 as [| |? ? a s1 Ha H1| | | |]; subst.
    inversion H1 as [| |? ? at_ s2 Hat H2| | | |]; subst.
    inversion H2 as [| |? ? b s3 Hb H3| | | |]; subst.
    inversion H3 as [| |? ? dot c Hdot Hc| | | |]; subst.
    apply char_in_lang in Hat as ->. apply char_in_lang in Hdot as ->.
    exists a, b, c. unfold email_word. by rewrite <- !plus_class_in_lang.
  - unfold email_word. intros (a & b & c & -> & Ha & Hb & Hc).
    repeat (apply in_cat); by rewrite ?plus_class_in_lang, ?char_in_lang.
Qed.

Lemma bad_email_string data em :
  prop data "email" = JStr em →
  bad_email data = Ret (negb (matches email_re em)).
Proof. intros E. unfold bad_email. rewrite E. by destruct em. Qed.

Lemma bad_phone_string data ph :
  prop data "phone" = JStr ph →
  bad_phone data = Ret (negb (matches phone_re ph)).
Proof. intros E. unfold bad_phone. rewrite E. by destruct ph. Qed.

Lemma includes_value_string l s :
  includes_value l (JStr s) = bool_decide (s ∈ l).
Proof.
  apply eq_true_iff_eq. cbn. rewrite existsb_exists, bool_decide_eq_true.
  split.
  - intros (x & Hin & ->%String.eqb_eq). by apply list_elem_of_In.
  - intros Hin. eexists. split; [by apply list_elem_of_In|apply String.eqb_refl].
Qed.

Lemma bad_role_string data rl :
  prop data "role" = JStr rl →
  bad_role data = Ret (negb (bool_decide (rl ∈ validRoles))).
Proof.
  intros E. unfold bad_role. rewrite E, includes_value_string.
  destruct rl as [|c rl]; [done|]. unfold or_else, bind, truthy.
  by cbn [String.eqb negb].
Qed.

Lemma email_message_in c1 c2 c3 c4 c5 c6 :
  email_message ∈ errors_of c1 c2 c3 c4 c5 c6 ↔ c2 = true.
Proof.
  rewrite list_elem_of_In.
  destruct c1, c2, c3, c4, c5, c6; vm_compute; intuition discriminate.
Qed.

Lemma phone_message_in c1 c2 c3 c4 c5 c6 :
  phone_message ∈ errors_of c1 c2 c3 c4 c5 c6 ↔ c3 = true.
Proof.
  rewrite list_elem_of_In.
  destruct c1, c2, c3, c4, c5, c6; vm_compute; intuition discriminate.
Qed.

Lemma role_message_in c1 c2 c3 c4 c5 c6 :
  role_message ∈ errors_of c1 c2 c3 c4 c5 c6 ↔ c4 = true.
Proof.
  rewrite list_elem_of_In.
  destruct c1, c2, c3, c4, c5, c6; vm_compute; intuition discriminate.
Qed.

(** X8.  For string fields, the email, phone and role messages are each in
    the returned list exactly when their own field breaks its rule: the
    email is not of the form word@word.word (words without whitespace or
    [@]), the phone is not ten digits, the role is not one of the three. *)
Theorem field_messages_exactly data isUpdate errs em ph rl :
  prop data "email" = JStr em →
  prop data "phone" = JStr ph →
  prop data "role" = JStr rl →
  validateUser data isUpdate = Ret errs →
  (email_message ∈ errs ↔ ¬ email_form em)
  ∧ (phone_message ∈ errs ↔ ¬ ten_digits ph)
  ∧ (role_message ∈ errs ↔ rl ∉ validRoles).
Proof.
  intros He Hp Hr Hv.
  apply validateUser_Ret in Hv as (c1 & c2 & c3 & c4 & c5 & c6 & _ & H2 & H3 & H4 & _ & _ & ->).
  rewrite (bad_email_string _ _ He) in H2.
  rewrite (bad_phone_string _ _ Hp) in H3.
  rewrite (bad_role_string _ _ Hr) in H4. simplify_eq.
  rewrite email_message_in, phone_message_in, role_message_in.
  rewrite !negb_true_iff, bool_decide_eq_false.
  unfold ten_digits.
  by rewrite <- !not_true_iff_false, email_re_shape, phone_re_ten_digits.
Qed.

Lemma errors_of_all_false : errors_of false false false false false false = [].
Proof. done. Qed.

(** X9.  A create request whose five fields are strings is accepted, with no
    message at all, exactly when the trimmed name has 2 to 50 characters, the
    email has the form word@word.word, the phone is ten digits, the role is
    one of the three and the password has at least 8 characters. *)
Theorem create_accepts_exactly data fn em ph rl pw :
  prop data "full_name" = JStr fn →
  prop data "email" = JStr em →
  prop data "phone" = JStr ph →
  prop data "role" = JStr rl →
  prop data "password" = JStr pw →
  validateUser data false = Ret [] ↔
    (2 ≤ String.length (trim fn) ≤ 50)%nat
    ∧ email_form em ∧ ten_digits ph ∧ rl ∈ validRoles
    ∧ (8 ≤ String.length pw)%nat.
Proof.
  intros Hn He Hp Hr Hw. rewrite validateUser_checks.
  rewrite (bad_full_name_string _ _ Hn), (bad_email_string _ _ He),
    (bad_phone_string _ _ Hp), (bad_role_string _ _ Hr).
  destruct (password_checks_string data false pw Hw) as [-> ->].
  cbn [bind negb andb].
  unfold ten_digits. rewrite <- email_re_shape, <- phone_re_ten_digits.
  split.
  - intros [= E].
    apply (errors_of_nil (_ || _) (negb _) (negb _) (negb _) (_ <? _)%nat false)
      in E as (E1 & E2 & E3 & E4 & E5 & _).
    apply orb_false_iff in E1 as [E1a E1b].
    apply Nat.ltb_ge in E1a, E1b, E5.
    apply negb_false_iff in E2, E3, E4. apply bool_decide_eq_true in E4.
    done.
  - intros ([H1a H1b] & -> & -> & H4 & H5).
    apply Nat.ltb_ge in H1a, H1b, H5. rewrite H1a, H1b, H5.
    by rewrite (bool_decide_eq_true_2 _ H4).
Qed.

Lemma password_checks_exclusive data isUpdate c5 c6 :
  bad_password_create data isUpdate = Ret c5 →
  bad_password_update data isUpdate = Ret c6 →
  c5 && c6 = false.
Proof.
  unfold bad_password_create, bad_password_update.
  destruct isUpdate; cbn; intros; simplify_eq; [done|apply andb_false_r].
Qed.

(** X10.  The list [validateUser] returns is always a sub-list of the five
    messages in their fixed order; in particular no message is there twice,
    although the password message is pushed at two places. *)
Theorem errors_are_ordered data isUpdate errs :
  validateUser data isUpdate = Ret errs → sublist errs five_messages.
Proof.
  intros (c1 & c2 & c3 & c4 & c5 & c6 & _ & _ & _ & _ & H5 & H6 & ->)%validateUser_Ret.
  pose proof (password_checks_exclusive _ _ _ _ H5 H6) as Hx.
  destruct c1, c2, c3, c4, c5, c6; try discriminate Hx;
    repeat (apply sublist_nil || apply sublist_skip || apply sublist_cons).
Qed.

Lemma create_to_update_password data c5 :
  bad_password_create data false = Ret c5 →
  bad_password_create data true = Ret false
  ∧ ∃ c6, bad_password_update data true = Ret c6 ∧ (c6 = true → c5 = true).
Proof.
  unfold bad_password_create, bad_password_update, and_then, or_else.
  cbn [bind negb]. intros H. split; [done|]. revert H.
  destruct (truthy (prop data "password")); cbn [negb].
  2: { intros [= <-]. by exists false. }
  destruct (get_length (prop data "password")) as [n|]; cbn [bind]; try done.
  unfold lt_num, gt_num.
  destruct (ToNumber n) as [x|]; cbn [bind]; try done.
  intros [= <-]. destruct (num_lt (Finite 0 0) x); [eauto|by exists false].
Qed.

(** X11.  An update is judged no harder than a create: whenever
    [validateUser] returns for a create it returns for an update of the same
    record, with the same list or with that list less its final password
    message. *)
Theorem update_is_more_lenient data errs :
  validateUser data false = Ret errs →
  ∃ errs', validateUser data true = Ret errs'
           ∧ (errs' = errs ∨ errs = (errs' ++ [password_message])%list).
Proof.
  intros (c1 & c2 & c3 & c4 & c5 & c6 & H1 & H2 & H3 & H4 & H5 & H6 & ->)%validateUser_Ret.
  destruct (create_to_update_password _ _ H5) as (Hc & c6' & Hu & Himp).
  assert (c6 = false) as -> by (by injection H6).
  rewrite validateUser_checks, H1, H2, H3, H4, Hc, Hu. cbn [bind].
  eexists. split; [done|].
  destruct c6'; [rewrite Himp by done; by left|].
  destruct c5; [by right|by left].
Qed.
End validator_rules.

(* ===================================================================== *)
(** ** What a valid request stores *)
(* ===================================================================== *)

Section stored_rows.

Implicit Types (req : list (string * JsValue)) (db : Db).

#[local] Existing Instance id_desc_total.
#[local] Existing Instance id_desc_trans.

Lemma trimStart_no_space s :
  is_space_opt (first_char s) = false → trimStart s = s.
Proof. destruct s as [|c s]; [done|]. cbn. by intros ->. Qed.

Lemma trimEnd_no_space s :
  all_chars (λ c, negb (is_space c)) s = true → trimEnd s = s.
Proof.
  induction s as [|c s IH]; [done|].
  cbn. intros [Hc Hs]%andb_true_iff. rewrite IH by done.
  apply negb_true_iff in Hc. rewrite Hc. by destruct s.
Qed.

Lemma trim_no_space s :
  all_chars (λ c, negb (is_space c)) s = true → trim s = s.
Proof.
  intros H. unfold trim. rewrite trimStart_no_space, trimEnd_no_space; try done.
  destruct s as [|c s]; [done|]. cbn in *.
  apply andb_true_iff in H as [H _]. by apply negb_true_iff in H.
Qed.

Lemma all_chars_impl (p q : ascii → bool) s :
  (∀ c, p c = true → q c = true) → all_chars p s = true → all_chars q s = true.
Proof.
  intros Hpq. induction s as [|c s IH]; [done|].
  cbn. intros [Hc Hs]%andb_true_iff. by rewrite (Hpq _ Hc), IH.
Qed.

Lemma digit_not_space c : is_digit c = true → negb (is_space c) = true.
Proof. by destruct c as [[] [] [] [] [] [] [] []]. Qed.

Lemma digit_not_nul c : is_digit c = true → negb (code c =? 0)%N = true.
Proof. by destruct c as [[] [] [] [] [] [] [] []]. Qed.

Lemma valid_email_matches req isUpdate em :
  validateUser req isUpdate = Ret [] →
  prop req "email" = JStr em → matches email_re em = true.
Proof.
  intros (c1 & c2 & c3 & c4 & c5 & c6 & _ & H2 & _ & _ & _ & _ & E)%validateUser_Ret He.
  symmetry in E. apply errors_of_nil in E as (_ & -> & _).
  rewrite (bad_email_string _ _ He) in H2. injection H2 as H2.
  by apply negb_false_iff in H2.
Qed.

Lemma valid_phone_matches req isUpdate ph :
  validateUser req isUpdate = Ret [] →
  prop req "phone" = JStr ph → matches phone_re ph = true.
Proof.
  intros (c1 & c2 & c3 & c4 & c5 & c6 & _ & _ & H3 & _ & _ & _ & E)%validateUser_Ret Hp.
  symmetry in E. apply errors_of_nil in E as (_ & _ & -> & _).
  rewrite (bad_phone_string _ _ Hp) in H3. injection H3 as H3.
  by apply negb_false_iff in H3.
Qed.

(** X12.  Of the three [trim()] calls a handler makes on a request that
    passed validation, only the one on the name can change anything: the
    statement is bound to the email as sent, lowercased, and to the phone as
    sent. *)
Theorem valid_email_and_phone_bound_as_sent req isUpdate em ph :
  validateUser req isUpdate = Ret [] →
  prop req "email" = JStr em →
  prop req "phone" = JStr ph →
  ∃ fn, prop req "full_name" = JStr fn
        ∧ bind_params req
          = Ret {| full_name := trim fn; email := toLowerCase em; phone := ph;
                   role := prop req "role"; password := prop req "password" |}.
Proof.
  intros Hv He Hp.
  destruct (valid_full_name_string _ _ Hv) as [fn Hn]. exists fn.
  split; [done|]. rewrite (bind_params_strings _ _ _ _ Hn He Hp).
  pose proof (email_re_no_space _ (valid_email_matches _ _ _ Hv He)) as Hem.
  pose proof (proj1 (phone_re_ten_digits _) (valid_phone_matches _ _ _ Hv Hp))
    as [_ Hph].
  rewrite (trim_no_space em Hem).
  rewrite (trim_no_space ph); [done|].
  eapply all_chars_impl; [apply digit_not_space|done].
Qed.

(** X13.  Validation can pass and the insert still not happen: when the
    email or the phone of a request that [validateUser] accepts is not a
    string (a number whose digits fit the phone pattern, say), the POST
    handler throws TypeError at [trim()] and writes nothing. *)
Theorem accepted_non_string_throws req db :
  validateUser req false = Ret [] →
  (∀ s, prop req "email" ≠ JStr s) ∨ (∀ s, prop req "phone" ≠ JStr s) →
  post_users req db = (Throw TypeError, db).
Proof.
  intros Hv Hns. unfold post_users. rewrite Hv. cbn [length Nat.ltb Nat.leb].
  destruct (valid_full_name_string _ _ Hv) as [fn Hn].
  unfold bind_params. rewrite Hn. cbn [call_trim bind].
  destruct (prop req "email") as [| |b|n|em|l|o] eqn:He; try done.
  destruct Hns as [Hns|Hns]; [by destruct (Hns em)|].
  cbn [call_trim bind].
  destruct (prop req "phone") as [| |b|n|ph|l|o] eqn:Hp; try done.
  by destruct (Hns ph).
Qed.

Lemma sorted_with_new_head (m : gmap Z UserRow) id row :
  m !! id = None →
  (∀ k, is_Some (m !! k) → k < id) →
  merge_sort id_desc (map_to_list (<[id := row]> m))
  = (id, row) :: merge_sort id_desc (map_to_list m).
Proof.
  intros Hfresh Hmax.
  apply (StronglySorted_unique_strong id_desc).
  - intros [k1 v1] [k2 v2] H1 H2 Ha Hb.
    rewrite merge_sort_Permutation in H1, H2.
    rewrite <- (map_to_list_insert m id row Hfresh) in H2.
    apply elem_of_map_to_list in H1, H2.
    unfold id_desc in Ha, Hb. cbn in Ha, Hb.
    assert (k1 = k2) as -> by lia. by simplify_eq.
  - apply StronglySorted_merge_sort; apply _.
  - constructor; [apply StronglySorted_merge_sort; apply _|].
    apply Forall_forall. intros [k v] Hin.
    rewrite merge_sort_Permutation in Hin.
    apply elem_of_map_to_list in Hin.
    unfold id_desc. cbn. assert (k < id) by (apply Hmax; eauto). lia.
  - rewrite !merge_sort_Permutation. by apply map_to_list_insert.
Qed.

(** X14.  A user just created is the first element of the next listing,
    with the stored (trimmed, lowercased) fields, and the rest of the listing
    is what the listing was before. *)
Theorem created_user_heads_the_list req db id db1 :
  post_users req db = (Ret (json 201 (created_body id req)), db1) →
  ∃ row,
    users db1 !! id = Some row
    ∧ get_users db1
      = (Ret (json 200 (JArr (row_object (id, row) :: select_all db))), db1).
Proof.
  intros H.
  apply post_users_201 in H as (i & p & _ & _ & Hr & E); [|done].
  injection E as ->.
  destruct (run_insert_ok _ _ _ _ Hr) as (Hfresh & Hdb & _).
  destruct (run_insert_id _ _ _ _ Hr) as (_ & _ & Hmax).
  exists p. split; [by rewrite Hdb, lookup_insert_eq|].
  unfold get_users, select_all. rewrite Hdb.
  by rewrite (sorted_with_new_head _ _ _ Hfresh Hmax).
Qed.

Lemma sql_length_no_nul s : no_nul s → sql_length s = String.length s.
Proof.
  unfold no_nul. induction s as [|c s IH]; [done|].
  cbn. intros [Hc Hs]%andb_true_iff. apply negb_true_iff in Hc.
  by rewrite Hc, IH.
Qed.

Lemma all_chars_trimStart p s :
  all_chars p s = true → all_chars p (trimStart s) = true.
Proof.
  induction s as [|c s IH]; [done|].
  cbn. intros [Hc Hs]%andb_true_iff.
  destruct (is_space c); [auto|]. cbn. by rewrite Hc, Hs.
Qed.

Lemma all_chars_trimEnd p s :
  all_chars p s = true → all_chars p (trimEnd s) = true.
Proof.
  induction s as [|c s IH]; [done|].
  cbn. intros [Hc Hs]%andb_true_iff. specialize (IH Hs).
  destruct (trimEnd s) as [|c' t].
  - destruct (is_space c); [done|]. cbn. by rewrite Hc.
  - cbn in *. by rewrite Hc, IH.
Qed.

Lemma valid_role_string req isUpdate :
  validateUser req isUpdate = Ret [] →
  ∃ rl, prop req "role" = JStr rl ∧ rl ∈ validRoles.
Proof.
  intros (c1 & c2 & c3 & c4 & c5 & c6 & _ & _ & _ & H4 & _ & _ & E)%validateUser_Ret.
  symmetry in E. apply errors_of_nil in E as (_ & _ & _ & -> & _).
  destruct (prop req "role") as [| |b|n|rl|l|o] eqn:Hr;
    try (unfold bad_role in H4; rewrite Hr in H4; cbn in H4;
         repeat case_match; discriminate).
  exists rl. split; [done|].
  rewrite (bad_role_string _ _ Hr) in H4. injection H4 as H4.
  by apply negb_false_iff, bool_decide_eq_true in H4.
Qed.

Lemma valid_create_password req pw :
  validateUser req false = Ret [] →
  prop req "password" = JStr pw → (8 ≤ String.length pw)%nat.
Proof.
  intros (c1 & c2 & c3 & c4 & c5 & c6 & _ & _ & _ & _ & H5 & _ & E)%validateUser_Ret Hw.
  symmetry in E. apply errors_of_nil in E as (_ & _ & _ & _ & -> & _).
  destruct (password_checks_string req false pw Hw) as [E5 _].
  rewrite E5 in H5. injection H5 as H5. by apply Nat.ltb_ge in H5.
Qed.

Lemma valid_full_name_length req isUpdate fn :
  validateUser req isUpdate = Ret [] →
  prop req "full_name" = JStr fn → (2 ≤ String.length (trim fn) ≤ 50)%nat.
Proof.
  intros (c1 & c2 & c3 & c4 & c5 & c6 & H1 & _ & _ & _ & _ & _ & E)%validateUser_Ret Hn.
  symmetry in E. apply errors_of_nil in E as (-> & _).
  rewrite (bad_full_name_string _ _ Hn) in H1. injection H1 as H1.
  apply orb_false_iff in H1 as [Ha Hb]. apply Nat.ltb_ge in Ha, Hb. lia.
Qed.

(** X15.  For a name and a password made of characters below U+0100 (the
    strings of this development) and without a NUL, the row a POST inserts
    meets the four CHECK constraints the migration script declares for the
    table, lengths being counted as SQLite counts them, up to the first
    NUL. *)
Theorem created_row_meets_migration_checks req db id db1 fn pw :
  post_users req db = (Ret (json 201 (created_body id req)), db1) →
  prop req "full_name" = JStr fn →
  prop req "password" = JStr pw →
  no_nul fn → no_nul pw →
  ∃ row rl,
    users db1 !! id = Some row
    ∧ role row = JStr rl ∧ password row = JStr pw
    ∧ migration_checks (full_name row) (phone row) rl pw = true.
Proof.
  intros H Hn Hw Hfn Hpw.
  apply post_users_201 in H as (i & p & Hv & Hp & Hr & E); [|done].
  injection E as ->.
  destruct (bind_params_Ret _ _ Hp) as (fn' & em & ph & Hn' & He & Hph & ->).
  rewrite Hn in Hn'. injection Hn' as <-.
  destruct (run_insert_ok _ _ _ _ Hr) as (_ & Hdb & _).
  destruct (valid_role_string _ _ Hv) as (rl & Hrl & Hin).
  eexists _, rl. split; [by rewrite Hdb, lookup_insert_eq|].
  cbn [role password full_name phone]. split_and!; [done..|].
  pose proof (valid_full_name_length _ _ _ Hv Hn) as [Hlo Hhi].
  pose proof (valid_create_password _ _ Hv Hw) as Hlen.
  pose proof (proj1 (phone_re_ten_digits _) (valid_phone_matches _ _ _ Hv Hph))
    as [Hten Hdig].
  assert (Hnul : no_nul (trim fn))
    by (by apply all_chars_trimEnd, all_chars_trimStart).
  assert (Hnulp : no_nul ph)
    by (eapply all_chars_impl; [apply digit_not_nul|done]).
  assert (Htrim : trim ph = ph).
  { apply trim_no_space. eapply all_chars_impl; [apply digit_not_space|done]. }
  unfold migration_checks.
  rewrite Htrim, !sql_length_no_nul by done.
  rewrite Hten. change validRoles with ["Admin"; "User"; "Guest"] in Hin.
  rewrite (bool_decide_eq_true_2 _ Hin).
  apply Nat.leb_le in Hlo, Hhi, Hlen. by rewrite Hlo, Hhi, Hlen.
Qed.

(** With a NUL in it, a name can pass [validateUser] and still break the
    length check of the migration's table. *)
Example nul_name_breaks_check :
  validateUser (with_field "full_name" (JStr nul_name) alice) false = Ret []
  ∧ migration_checks (trim nul_name) "1234567890" "Admin" "secret123" = false.
Proof. by vm_compute. Qed.
End stored_rows.

(* ===================================================================== *)
(** ** The contact messages *)
(* ===================================================================== *)

Section contacts.

Implicit Types (req : list (string * JsValue)) (t : Contacts.Table).

Lemma trimmed_length_check v s (lo hi : nat) :
  v = JStr s → (0 < lo)%nat →
  Ret (negb (truthy v))
  ||| (do x <- call_trim v ;; Ret (String.length x <? lo)%nat)
  ||| (do x <- call_trim v ;; Ret (hi <? String.length x)%nat)
  = Ret ((String.length (trim s) <? lo)%nat || (hi <? String.length (trim s))%nat).
Proof.
  intros -> Hlo. destruct s as [|c s].
  - cbn -[Nat.ltb]. by rewrite (proj2 (Nat.ltb_lt 0 lo) Hlo).
  - cbn -[trim Nat.ltb]. by destruct (String.length _ <? lo)%nat.
Qed.

Lemma contact_errors_checks req :
  Contacts.contact_errors req =
  (do c1 <- contact_bad_name req ;;
   do c2 <- bad_email req ;;
   do c3 <- contact_bad_subject req ;;
   do c4 <- contact_bad_message req ;;
   Ret (contact_errors_of c1 c2 c3 c4)).
Proof. reflexivity. Qed.

Lemma contact_errors_Ret req errs :
  Contacts.contact_errors req = Ret errs →
  ∃ c1 c2 c3 c4,
    contact_bad_name req = Ret c1 ∧ bad_email req = Ret c2
    ∧ contact_bad_subject req = Ret c3 ∧ contact_bad_message req = Ret c4
    ∧ errs = contact_errors_of c1 c2 c3 c4.
Proof.
  rewrite contact_errors_checks. intros H.
  apply bind_Ret in H as (c1 & ? & H). apply bind_Ret in H as (c2 & ? & H).
  apply bind_Ret in H as (c3 & ? & H). apply bind_Ret in H as (c4 & ? & H).
  exists c1, c2, c3, c4. by simplify_eq.
Qed.

Lemma contact_errors_of_nil c1 c2 c3 c4 :
  contact_errors_of c1 c2 c3 c4 = [] →
  c1 = false ∧ c2 = false ∧ c3 = false ∧ c4 = false.
Proof. by destruct c1, c2, c3, c4. Qed.

Lemma contact_bad_subject_string req sub :
  prop req "subject" = JStr sub →
  contact_bad_subject req = Ret (negb (bool_decide (sub ∈ Contacts.validSubjects))).
Proof.
  intros E. unfold contact_bad_subject. rewrite E, includes_value_string.
  destruct sub as [|c sub]; [done|]. unfold or_else, bind, truthy.
  by cbn [String.eqb negb].
Qed.

(** X16.  A contact request whose four fields are strings gets no message
    exactly when the trimmed name has 2 to 50 characters, the email has the
    form word@word.word, the subject is one of the four and the trimmed
    message has 10 to 1000 characters. *)
Theorem contact_accepts_exactly req n em sub msg :
  prop req "name" = JStr n →
  prop req "email" = JStr em →
  prop req "subject" = JStr sub →
  prop req "message" = JStr msg →
  Contacts.contact_errors req = Ret [] ↔
    (2 ≤ String.length (trim n) ≤ 50)%nat
    ∧ email_form em ∧ sub ∈ Contacts.validSubjects
    ∧ (10 ≤ String.length (trim msg) ≤ 1000)%nat.
Proof.
  intros Hn He Hs Hm. rewrite contact_errors_checks.
  unfold contact_bad_name, contact_bad_message.
  rewrite (trimmed_length_check _ n 2 50 Hn) by lia.
  rewrite (trimmed_length_check _ msg 10 1000 Hm) by lia.
  rewrite (bad_email_string _ _ He), (contact_bad_subject_string _ _ Hs).
  cbn [bind]. rewrite <- email_re_shape.
  split.
  - intros [= E]. apply contact_errors_of_nil in E as (E1 & E2 & E3 & E4).
    apply orb_false_iff in E1 as [E1a E1b]. apply orb_false_iff in E4 as [E4a E4b].
    apply Nat.ltb_ge in E1a, E1b, E4a, E4b.
    apply negb_false_iff in E2, E3. apply bool_decide_eq_true in E3.
    done.
  - intros ([H1a H1b] & -> & H3 & [H4a H4b]).
    apply Nat.ltb_ge in H1a, H1b, H4a, H4b. rewrite H1a, H1b, H4a, H4b.
    by rewrite (bool_decide_eq_true_2 _ H3).
Qed.

Lemma trimmed_check_string v (lo hi : nat) :
  Ret (negb (truthy v))
  ||| (do x <- call_trim v ;; Ret (String.length x <? lo)%nat)
  ||| (do x <- call_trim v ;; Ret (hi <? String.length x)%nat)
  = Ret false →
  ∃ s, v = JStr s.
Proof.
  destruct v as [| |[]|n|s|l|o]; try done.
  - cbn. by destruct (negb (n =? 0)).
  - by eexists.
Qed.

Lemma contact_max_rowid_ge (m : gmap Z Contacts.Row) k row :
  m !! k = Some row → k ≤ Contacts.max_rowid m.
Proof.
  intros Hl. apply elem_of_map_to_list in Hl. unfold Contacts.max_rowid.
  induction (map_to_list m) as [|[k' r'] l IH]; [by apply elem_of_nil in Hl|].
  apply elem_of_cons in Hl as [Hl|Hl]; cbn.
  - simplify_eq. lia.
  - specialize (IH Hl). lia.
Qed.

Lemma contact_max_rowid_bound (m : gmap Z Contacts.Row) b :
  0 < b → Contacts.max_rowid m < b ↔ map_Forall (λ k _, k < b) m.
Proof.
  intros Hb. rewrite map_Forall_to_list. unfold Contacts.max_rowid.
  induction (map_to_list m) as [|[k' r'] l IH]; cbn [foldr].
  - split; [constructor|done].
  - rewrite Forall_cons, <- IH. cbn [uncurry fst]. lia.
Qed.

Lemma contact_ids_remain_largest t :
  contact_ids_remain t ↔
  Z.max (Contacts.max_rowid (Contacts.contact_messages t))
        (Contacts.contact_messages_seq t) < 2 ^ 63 - 1.
Proof.
  unfold contact_ids_remain. rewrite <- contact_max_rowid_bound by done. lia.
Qed.

(** X17.  A contact request with no validation message and a string email is
    answered 201 whatever rows the table holds (the same message included),
    as long as row ids are left: it gets an id above every id of the table,
    the answer repeats the fields as sent, and the new row holds the trimmed
    name and message, the lowercased email and the time of the insert.  Once
    the largest row id has been used the insert fails, and the request is
    answered 500 and leaves the table as it was. *)
Theorem contact_created now req t em :
  Contacts.contact_errors req = Ret [] →
  prop req "email" = JStr em →
  (contact_ids_remain t →
   ∃ n msg id,
     prop req "name" = JStr n ∧ prop req "message" = JStr msg
     ∧ (∀ k, is_Some (Contacts.contact_messages t !! k) → k < id)
     ∧ Contacts.post_contacts now req t
       = (Ret (json 201 (Contacts.created_body id req)),
          {| Contacts.contact_messages :=
               <[id := {| Contacts.name := trim n;
                          Contacts.email := toLowerCase em;
                          Contacts.subject := prop req "subject";
                          Contacts.message := trim msg;
                          Contacts.created_at := now |}]>
                 (Contacts.contact_messages t);
             Contacts.contact_messages_seq := id |}))
  ∧ (¬ contact_ids_remain t →
     Contacts.post_contacts now req t
     = (Ret {| status := 500;
               body := JObj [("error", JStr "Failed to save message")] |}, t)).
Proof.
  intros Hv He.
  destruct (contact_errors_Ret _ _ Hv) as (c1 & c2 & c3 & c4 & H1 & H2 & _ & H4 & E).
  symmetry in E. apply contact_errors_of_nil in E as (-> & -> & _ & ->).
  destruct (trimmed_check_string _ _ _ H1) as [n Hn].
  destruct (trimmed_check_string _ _ _ H4) as [msg Hm].
  rewrite (bad_email_string _ _ He) in H2. injection H2 as H2.
  apply negb_false_iff, email_re_no_space, trim_no_space in H2.
  rewrite contact_ids_remain_largest.
  unfold Contacts.post_contacts. rewrite Hv. cbn [length Nat.ltb Nat.leb].
  unfold Contacts.bind_params. rewrite Hn, He, Hm. cbn [call_trim bind].
  rewrite H2. unfold Contacts.run_insert.
  destruct (Z.leb_spec (2 ^ 63 - 1)
              (Z.max (Contacts.max_rowid (Contacts.contact_messages t))
                     (Contacts.contact_messages_seq t))) as [Hfull|Hleft].
  - split; [lia|done].
  - split; [intros _|lia].
    exists n, msg. eexists. split_and!; [done..| |done].
    intros k [row Hk]. apply contact_max_rowid_ge in Hk. lia.
Qed.

#[local] Instance contact_id_desc_total : Total Contacts.id_desc.
Proof. intros a b. unfold Contacts.id_desc. lia. Qed.

#[local] Instance contact_id_desc_trans : Transitive Contacts.id_desc.
Proof. intros a b c. unfold Contacts.id_desc. lia. Qed.




(** What a contact request can do to the table. *)
Lemma contact_handle_cases r t :
  (Contacts.handle r t).2 = t
  ∨ (∃ id row,
       Contacts.contact_messages_seq t < id
       ∧ (Contacts.handle r t).2
         = {| Contacts.contact_messages := <[id := row]> (Contacts.contact_messages t);
              Contacts.contact_messages_seq := id |})
  ∨ (∃ id,
       (Contacts.handle r t).2
       = {| Contacts.contact_messages := delete id (Contacts.contact_messages t);
            Contacts.contact_messages_seq := Contacts.contact_messages_seq t |}).
Proof.
  destruct r as [|now req|id]; cbn [Contacts.handle].
  - by left.
  - unfold Contacts.post_contacts.
    destruct (Contacts.contact_errors req) as [[|e errs]|]; [|by left..].
    cbn [length Nat.ltb Nat.leb].
    destruct (Contacts.bind_params req) as [[[[n e] s] m]|]; [|by left..].
    unfold Contacts.run_insert. destruct (_ <=? _); [by left|].
    right. left. eexists _, _. split; [|done]. lia.
  - unfold Contacts.delete_contacts, Contacts.run_delete.
    destruct (Contacts.contact_messages t !! id); [|by left].
    right. right. by exists id.
Qed.

Lemma contact_step r t k :
  contact_ids_covered t → k ≤ Contacts.contact_messages_seq t →
  contact_ids_covered (Contacts.handle r t).2
  ∧ k ≤ Contacts.contact_messages_seq (Contacts.handle r t).2
  ∧ (Contacts.contact_messages (Contacts.handle r t).2 !! k
     = Contacts.contact_messages t !! k
     ∨ Contacts.contact_messages (Contacts.handle r t).2 !! k = None).
Proof.
  intros Hc Hk.
  destruct (contact_handle_cases r t) as [E|[(id & row & Hid & E)|[id E]]];
    rewrite E; unfold contact_ids_covered in *;
    cbn [Contacts.contact_messages Contacts.contact_messages_seq].
  - by split_and!; [..|left].
  - split_and!; [|lia|].
    + intros k' [row' Hk']. cbn [Contacts.contact_messages] in Hk'.
      rewrite lookup_insert in Hk'. case_decide; [lia|].
      assert (k' ≤ Contacts.contact_messages_seq t) by (apply Hc; eauto). lia.
    + left. apply lookup_insert_ne. lia.
  - split_and!; [|done|].
    + intros k' [row' Hk']. cbn [Contacts.contact_messages] in Hk'.
      rewrite lookup_delete in Hk'. case_decide; [done|]. apply Hc; eauto.
    + rewrite lookup_delete. case_decide; [by right|by left].
Qed.

Lemma contact_deleted_stays_deleted rs t k :
  contact_ids_covered t → k ≤ Contacts.contact_messages_seq t →
  Contacts.contact_messages t !! k = None →
  Contacts.contact_messages (Contacts.run rs t) !! k = None.
Proof.
  revert t. induction rs as [|r rs IH]; intros t Hc Hk Hnone; [done|].
  cbn [Contacts.run].
  destruct (contact_step r t k Hc Hk) as (Hc' & Hk' & Hl).
  apply IH; [done..|]. destruct Hl as [Hl|Hl]; [by rewrite Hl|done].
Qed.

(** X20.  A contact message never changes once stored: in a table whose ids
    the counter covers (the empty table is one), the row read at an id after
    any sequence of requests is the row that was there before; and an id
    whose row was deleted is never given to another message. *)
Theorem contact_rows_never_change rs t k row :
  contact_ids_covered t →
  Contacts.contact_messages t !! k = Some row →
  Contacts.contact_messages (Contacts.run rs t) !! k = Some row
  ∨ Contacts.contact_messages (Contacts.run rs t) !! k = None.
Proof.
  revert t. induction rs as [|r rs IH]; intros t Hc Hrow; [by left|].
  cbn [Contacts.run].
  assert (Hk : k ≤ Contacts.contact_messages_seq t) by (apply Hc; eauto).
  destruct (contact_step r t k Hc Hk) as (Hc' & Hk' & [Hl|Hl]).
  - apply IH; [done|]. by rewrite Hl.
  - right. by apply contact_deleted_stays_deleted.
Qed.
End contacts.

(* ===================================================================== *)
(** ** The further properties at sample requests *)
(* ===================================================================== *)

Lemma unsuccessful_request_changes_nothing_at_empty_record :
  (handle (POST_users []) alice_db).2 = alice_db.
Proof.
  apply (unsuccessful_request_changes_nothing (POST_users []) alice_db).
  vm_compute. reflexivity.
Defined.

Lemma created_ids_increase_after_delete :
  post_users alice empty_db = (Ret (json 201 (created_body 1 alice)), alice_db)
  ∧ post_users alice (run [DELETE_users 1] alice_db)
    = (Ret (json 201 (created_body 2 alice)), alice_again_db)
  ∧ 1 < 2.
Proof.
  split_and!; [vm_compute; reflexivity..|].
  apply (created_ids_increase alice empty_db 1 alice_db [DELETE_users 1]
           alice 2 alice_again_db); vm_compute; reflexivity.
Defined.

Lemma stored_emails_differ_beyond_case_at_alice :
  users (run [POST_users alice] empty_db) !! 1 = Some alice_row ∧ 1 = 1.
Proof.
  split; [vm_compute; reflexivity|].
  apply (stored_emails_differ_beyond_case [POST_users alice] 1 1
           alice_row alice_row); vm_compute; reflexivity.
Defined.

Lemma delete_undoes_create_at_alice :
  delete_users 1 alice_db
  = (Ret (json 200 (message_body "User deleted successfully")),
     {| users := users empty_db; users_seq := 1 |}).
Proof.
  apply (delete_undoes_create alice empty_db 1 alice_db).
  vm_compute. reflexivity.
Defined.

Lemma request_touches_one_row_at_delete :
  users (handle (DELETE_users 1) alice_db).2 !! 1 ≠ users alice_db !! 1
  ∧ 1 = 1.
Proof.
  split; [vm_compute; discriminate|].
  apply (request_touches_one_row (DELETE_users 1) alice_db 1).
  vm_compute. discriminate.
Defined.

Lemma field_messages_exactly_at_alice :
  (email_message ∈ ([] : list string) ↔ ¬ email_form "Alice@Example.COM")
  ∧ (phone_message ∈ ([] : list string) ↔ ¬ ten_digits "1234567890")
  ∧ (role_message ∈ ([] : list string) ↔ "Admin" ∉ validRoles).
Proof.
  apply (field_messages_exactly alice false [] "Alice@Example.COM"
           "1234567890" "Admin"); vm_compute; reflexivity.
Defined.

Lemma create_accepts_exactly_at_alice :
  validateUser alice false = Ret [] ↔
    (2 ≤ String.length (trim " Alice Smith ") ≤ 50)%nat
    ∧ email_form "Alice@Example.COM" ∧ ten_digits "1234567890"
    ∧ "Admin" ∈ validRoles ∧ (8 ≤ String.length "secret123")%nat.
Proof.
  apply (create_accepts_exactly alice " Alice Smith " "Alice@Example.COM"
           "1234567890" "Admin" "secret123"); reflexivity.
Defined.

Lemma errors_are_ordered_at_empty_record :
  sublist five_messages five_messages.
Proof.
  apply (errors_are_ordered [] false five_messages). vm_compute. reflexivity.
Defined.

Lemma update_is_more_lenient_at_no_password :
  ∃ errs', validateUser alice_no_password true = Ret errs'
           ∧ (errs' = [password_message]
              ∨ [password_message] = (errs' ++ [password_message])%list).
Proof.
  apply (update_is_more_lenient alice_no_password [password_message]).
  vm_compute. reflexivity.
Defined.

Lemma valid_email_and_phone_bound_as_sent_at_alice :
  ∃ fn, prop alice "full_name" = JStr fn
        ∧ bind_params alice
          = Ret {| full_name := trim fn; email := toLowerCase "Alice@Example.COM";
                   phone := "1234567890"; role := prop alice "role";
                   password := prop alice "password" |}.
Proof.
  apply (valid_email_and_phone_bound_as_sent alice false "Alice@Example.COM"
           "1234567890"); vm_compute; reflexivity.
Defined.

Lemma accepted_non_string_throws_at_numeric_phone :
  post_users alice_numeric_phone empty_db = (Throw TypeError, empty_db).
Proof.
  apply (accepted_non_string_throws alice_numeric_phone empty_db).
  - vm_compute. reflexivity.
  - right. intros s. vm_compute. discriminate.
Defined.

Lemma created_user_heads_the_list_at_alice :
  ∃ row,
    users alice_db !! 1 = Some row
    ∧ get_users alice_db
      = (Ret (json 200 (JArr (row_object (1, row) :: select_all empty_db))),
         alice_db).
Proof.
  apply (created_user_heads_the_list alice empty_db 1 alice_db).
  vm_compute. reflexivity.
Defined.

Lemma created_row_meets_migration_checks_at_alice :
  ∃ row rl,
    users alice_db !! 1 = Some row
    ∧ role row = JStr rl ∧ password row = JStr "secret123"
    ∧ migration_checks (full_name row) (phone row) rl "secret123" = true.
Proof.
  apply (created_row_meets_migration_checks alice empty_db 1 alice_db
           " Alice Smith " "secret123"); vm_compute; reflexivity.
Defined.

Lemma contact_accepts_exactly_at_hello :
  Contacts.contact_errors hello = Ret [] ↔
    (2 ≤ String.length (trim " Bob ") ≤ 50)%nat
    ∧ email_form "Bob@Example.com" ∧ "Support" ∈ Contacts.validSubjects
    ∧ (10 ≤ String.length (trim "  Please call me back.  ") ≤ 1000)%nat.
Proof.
  apply (contact_accepts_exactly hello " Bob " "Bob@Example.com" "Support"
           "  Please call me back.  "); reflexivity.
Defined.

Lemma contact_created_twice :
  (contact_ids_remain hello_table →
   ∃ n msg id,
     prop hello "name" = JStr n ∧ prop hello "message" = JStr msg
     ∧ (∀ k, is_Some (Contacts.contact_messages hello_table !! k) → k < id)
     ∧ Contacts.post_contacts "2024-05-01 10:05:00" hello hello_table
       = (Ret (json 201 (Contacts.created_body id hello)),
          {| Contacts.contact_messages :=
               <[id := {| Contacts.name := trim n;
                          Contacts.email := toLowerCase "Bob@Example.com";
                          Contacts.subject := prop hello "subject";
                          Contacts.message := trim msg;
                          Contacts.created_at := "2024-05-01 10:05:00" |}]>
                 (Contacts.contact_messages hello_table);
             Contacts.contact_messages_seq := id |}))
  ∧ contact_ids_remain hello_table
  ∧ ¬ contact_ids_remain used_up_table
  ∧ Contacts.post_contacts "2024-05-01 10:05:00" hello used_up_table
    = (Ret {| status := 500;
              body := JObj [("error", JStr "Failed to save message")] |},
       used_up_table).
Proof.
  split_and!.
  - apply (contact_created "2024-05-01 10:05:00" hello hello_table
             "Bob@Example.com"); vm_compute; reflexivity.
  - apply (bool_decide_unpack _). vm_compute. exact I.
  - apply (bool_decide_eq_false_1 (contact_ids_remain used_up_table)).
    vm_compute. reflexivity.
  - apply (contact_created "2024-05-01 10:05:00" hello used_up_table
             "Bob@Example.com"); [vm_compute; reflexivity..|].
    apply (bool_decide_eq_false_1 (contact_ids_remain used_up_table)).
    vm_compute. reflexivity.
Defined.


Lemma contact_rows_never_change_at_hello :
  Contacts.contact_messages
    (Contacts.run [Contacts.POST_contacts "2024-05-01 10:05:00" hello]
       hello_table) !! 1
  = Some (hello_row "2024-05-01 10:00:00")
  ∨ Contacts.contact_messages
      (Contacts.run [Contacts.POST_contacts "2024-05-01 10:05:00" hello]
         hello_table) !! 1
    = None.
Proof.
  apply (contact_rows_never_change
           [Contacts.POST_contacts "2024-05-01 10:05:00" hello] hello_table 1
           (hello_row "2024-05-01 10:00:00")).
  - intros k [row Hk]. unfold hello_table in *.
    cbn [Contacts.contact_messages Contacts.contact_messages_seq] in *.
    apply lookup_singleton_Some in Hk as [<- _]. reflexivity.
  - reflexivity.
Defined.
